(** * Imaginebuild: request shaping, capture gate, orchestrator, voice session

    A shallow embedding of the TypeScript sources
    ([services/gemini.ts] and the application component) together with
    the properties stated about them.

    Conventions.
    - A JavaScript string is a sequence of UTF-16 code units: [list N].
      String literals of the source are written [js "..."].
    - A [Uint8Array] is a [list byte].
    - A JavaScript exception / rejected promise is the [Throw] case of
      [result]; [async] functions are cut at their [await]s where another
      handler can run in between, and are otherwise run to completion.
    - The generative-AI service, the camera, the microphone and the
      random source are oracles passed as arguments. *)

From Stdlib Require Import NArith ZArith QArith String Ascii Lia Bool.
From Stdlib Require Import Strings.Byte.
From Stdlib Require Import Qabs.
From stdpp Require Import base decidable option list gmap sets.

Local Open Scope N_scope.
Local Set Warnings "-register-all".

Ltac Zify.zify_post_hook ::= Z.to_euclidean_division_equations.

(* ===================================================================== *)
(** ** Exceptions and results *)
(* ===================================================================== *)

Inductive exn : Type :=
| TypeError            (* property read on null / undefined *)
| SyntaxError          (* JSON.parse *)
| RangeError           (* typed-array length *)
| InvalidCharacterError (* btoa / atob *)
| NotSupportedError    (* AudioContext.createBuffer *)
| Error (msg : string) (* new Error(msg) *)
| ServiceError.        (* rejected request to the AI service *)

Inductive result (A : Type) : Type :=
| Ok (a : A)
| Throw (e : exn).
Arguments Ok {A} a.
Arguments Throw {A} e.

Definition rbind {A B} (r : result A) (k : A -> result B) : result B :=
  match r with
  | Ok a => k a
  | Throw e => Throw e
  end.

Notation "'let?' x := r 'in' k" := (rbind r (fun x => k))
  (at level 10, x pattern, r at level 100, k at level 200).

(* ===================================================================== *)
(** ** JavaScript strings *)
(* ===================================================================== *)

Module JS.

Definition jsstring := list N.

(** A source literal as code units. *)
Definition js (s : string) : jsstring :=
  map N_of_ascii (list_ascii_of_string s).

(** [s.startsWith(p)] and the rest after the prefix. *)
Fixpoint strip_prefix (p s : jsstring) : option jsstring :=
  match p, s with
  | [], _ => Some s
  | c :: p', d :: s' => if c =? d then strip_prefix p' s' else None
  | _ :: _, [] => None
  end.

(** Longest prefix whose code units all satisfy [f], and the rest. *)
Fixpoint span (f : N -> bool) (s : jsstring) : jsstring * jsstring :=
  match s with
  | [] => ([], [])
  | c :: s' =>
      if f c then let (a, b) := span f s' in (c :: a, b) else ([], s)
  end.

(** ToBoolean on a string. *)
Definition truthy_str (s : jsstring) : bool :=
  match s with [] => false | _ => true end.

End JS.
Import JS.

(* ===================================================================== *)
(** ** Base64: [btoa], [atob], [encode], [decode] *)
(* ===================================================================== *)

Module Base64.

Definition pad : N := 61. (* '=' *)

(** The base64 alphabet, by value: A-Z a-z 0-9 + / *)
Definition b64_char (s : N) : N :=
  if s <? 26 then s + 65
  else if s <? 52 then s + 71
  else if s <? 62 then s - 4
  else if s =? 62 then 43
  else 47.

Definition b64_index (c : N) : option N :=
  if (65 <=? c) && (c <=? 90) then Some (c - 65)
  else if (97 <=? c) && (c <=? 122) then Some (c - 71)
  else if (48 <=? c) && (c <=? 57) then Some (c + 4)
  else if c =? 43 then Some 62
  else if c =? 47 then Some 63
  else None.

(** Groups of three octets become four characters; the last group is
    padded with '='. *)
Fixpoint btoa_groups (l : list N) : jsstring :=
  match l with
  | [] => []
  | a :: l1 =>
      match l1 with
      | [] => [b64_char (a / 4); b64_char ((a mod 4) * 16); pad; pad]
      | b :: l2 =>
          match l2 with
          | [] => [b64_char (a / 4); b64_char ((a mod 4) * 16 + b / 16);
                   b64_char ((b mod 16) * 4); pad]
          | c :: r =>
              b64_char (a / 4) :: b64_char ((a mod 4) * 16 + b / 16)
              :: b64_char ((b mod 16) * 4 + c / 64) :: b64_char (c mod 64)
              :: btoa_groups r
          end
      end
  end.

(** [btoa(binary)]: throws when a code unit is above 0xFF. *)
Definition btoa (binary : jsstring) : result jsstring :=
  if forallb (fun c => c <? 256) binary then Ok (btoa_groups binary)
  else Throw InvalidCharacterError.

Definition is_ascii_whitespace (c : N) : bool :=
  (c =? 9) || (c =? 10) || (c =? 12) || (c =? 13) || (c =? 32).

(** Remove one or two trailing '='. *)
Fixpoint drop_trailing_pad (d : jsstring) : jsstring :=
  match d with
  | [] => []
  | x :: r =>
      match r with
      | [] => if x =? pad then [] else [x]
      | [y] => if y =? pad then (if x =? pad then [] else [x]) else [x; y]
      | _ => x :: drop_trailing_pad r
      end
  end.

Fixpoint sextets (d : jsstring) : option (list N) :=
  match d with
  | [] => Some []
  | c :: d' =>
      match b64_index c, sextets d' with
      | Some s, Some l => Some (s :: l)
      | _, _ => None
      end
  end.

(** Four sextets give three octets; a final group of two gives one octet
    and one of three gives two (the spare low bits are discarded). *)
Fixpoint atob_groups (l : list N) : jsstring :=
  match l with
  | a :: b :: l2 =>
      match l2 with
      | [] => [a * 4 + b / 16]
      | c :: l3 =>
          match l3 with
          | [] => [a * 4 + b / 16; (b mod 16) * 16 + c / 4]
          | d :: r =>
              (a * 4 + b / 16) :: ((b mod 16) * 16 + c / 4)
              :: ((c mod 4) * 64 + d) :: atob_groups r
          end
      end
  | _ => []
  end.

(** [atob(data)], the forgiving-base64 decode of the HTML standard. *)
Definition atob (data : jsstring) : result jsstring :=
  let d := List.filter (fun c => negb (is_ascii_whitespace c)) data in
  let d := if N.of_nat (length d) mod 4 =? 0 then drop_trailing_pad d else d in
  if N.of_nat (length d) mod 4 =? 1 then Throw InvalidCharacterError
  else match sextets d with
       | Some l => Ok (atob_groups l)
       | None => Throw InvalidCharacterError
       end.

(** Storing a number into a [Uint8Array] element keeps it modulo 256. *)
Definition to_uint8 (n : N) : Byte.byte :=
  match Byte.of_N (n mod 256) with
  | Some b => b
  | None => Byte.x00
  end.

(** [String.fromCharCode(bytes[i])] *)
Definition fromCharCode (b : Byte.byte) : N := Byte.to_N b.

(** [function encode(bytes: Uint8Array)] *)
Definition encode (bytes : list Byte.byte) : result jsstring :=
  let binary := fold_left (fun acc b => acc ++ [fromCharCode b]) bytes [] in
  btoa binary.

(** [function decode(base64: string)] *)
Definition decode (base64 : jsstring) : result (list Byte.byte) :=
  let? binaryString := atob base64 in
  Ok (map to_uint8 binaryString).

End Base64.

(* ===================================================================== *)
(** ** JSON values and [JSON.parse] *)
(* ===================================================================== *)

Module Json.

(** A number literal, kept exactly: (-1)^neg * mant * 10^exp10. *)
Record number := { neg : bool; mant : N; exp10 : Z }.

Inductive json : Type :=
| JNull
| JBool (b : bool)
| JNum (n : number)
| JStr (s : jsstring)
| JArr (items : list json)
| JObj (fields : list (jsstring * json)).

Definition jsstring_eqb (a b : jsstring) : bool :=
  bool_decide (a = b).

(** Own property lookup; [None] is [undefined]. *)
Fixpoint assoc (k : jsstring) (fields : list (jsstring * json)) : option json :=
  match fields with
  | [] => None
  | (k', v) :: rest => if jsstring_eqb k k' then Some v else assoc k rest
  end.

(** Defining a property again replaces its value and keeps its place. *)
Fixpoint obj_set (k : jsstring) (v : json) (fields : list (jsstring * json))
  : list (jsstring * json) :=
  match fields with
  | [] => [(k, v)]
  | (k', v') :: rest =>
      if jsstring_eqb k k' then (k', v) :: rest else (k', v') :: obj_set k v rest
  end.

(** The literal denotes a double that is not zero: a decimal rounds to
    zero exactly when its magnitude is at most 2^-1075. *)
Definition num_truthy (n : number) : bool :=
  match exp10 n with
  | Z.neg e => (10 ^ N.pos e <? mant n * 2 ^ 1075)%N
  | _ => negb (mant n =? 0)
  end.

(** ToBoolean *)
Definition truthy (v : json) : bool :=
  match v with
  | JNull => false
  | JBool b => b
  | JNum n => num_truthy n
  | JStr s => truthy_str s
  | JArr _ | JObj _ => true
  end.

(** [v.k] for a key [k] that no prototype defines (the keys read by the
    source are name, description, floorPlanJson, costs, rooms, ...):
    reading a property of [null] throws, a primitive or an array has no
    such property. *)
Definition get_prop (v : json) (k : jsstring) : result (option json) :=
  match v with
  | JNull => Throw TypeError
  | JObj fields => Ok (assoc k fields)
  | _ => Ok None
  end.

(** [x || d] *)
Definition or_default (x : option json) (d : json) : json :=
  match x with
  | Some v => if truthy v then v else d
  | None => d
  end.

Definition is_json_ws (c : N) : bool :=
  (c =? 32) || (c =? 9) || (c =? 10) || (c =? 13).

Fixpoint skip_ws (s : jsstring) : jsstring :=
  match s with
  | c :: s' => if is_json_ws c then skip_ws s' else s
  | [] => []
  end.

Definition is_digit (c : N) : bool := (48 <=? c) && (c <=? 57).

Definition hex_val (c : N) : option N :=
  if is_digit c then Some (c - 48)
  else if (97 <=? c) && (c <=? 102) then Some (c - 87)
  else if (65 <=? c) && (c <=? 70) then Some (c - 55)
  else None.

Fixpoint digits_val (ds : jsstring) (acc : N) : N :=
  match ds with
  | [] => acc
  | d :: r => digits_val r (acc * 10 + (d - 48))
  end.

(** A number: an optional minus; an integer part that is 0 or starts
    with 1-9; an optional fraction of at least one digit; an optional
    exponent of at least one digit with an optional sign. *)
Definition parse_number (s : jsstring) : option (number * jsstring) :=
  let '(sign, s1) := match s with 45 :: r => (true, r) | _ => (false, s) end in
  let '(int, s2) := span is_digit s1 in
  let int_ok := match int with
                | [] => false
                | 48 :: _ :: _ => false
                | _ => true
                end in
  let '(frac, frac_ok, s3) :=
    match s2 with
    | 46 :: r => let '(f, r') := span is_digit r in (f, truthy_str f, r')
    | _ => ([], true, s2)
    end in
  let '(e, e_ok, s4) :=
    match s3 with
    | c :: r =>
        if (c =? 101) || (c =? 69) then
          let '(eneg, r1) := match r with
                             | 45 :: r' => (true, r')
                             | 43 :: r' => (false, r')
                             | _ => (false, r)
                             end in
          let '(ds, r2) := span is_digit r1 in
          let v := Z.of_N (digits_val ds 0) in
          ((if eneg then - v else v)%Z, truthy_str ds, r2)
        else (0%Z, true, s3)
    | [] => (0%Z, true, s3)
    end in
  if int_ok && frac_ok && e_ok then
    Some ({| neg := sign;
             mant := digits_val (int ++ frac) 0;
             exp10 := (e - Z.of_nat (length frac))%Z |}, s4)
  else None.

Definition unescape (e : N) : option N :=
  if e =? 34 then Some 34        (* escaped quote *)
  else if e =? 92 then Some 92   (* escaped backslash *)
  else if e =? 47 then Some 47   (* escaped slash *)
  else if e =? 98 then Some 8    (* b: backspace *)
  else if e =? 102 then Some 12  (* f: form feed *)
  else if e =? 110 then Some 10  (* n: line feed *)
  else if e =? 114 then Some 13  (* r: carriage return *)
  else if e =? 116 then Some 9   (* t: tab *)
  else None.

Definition hex4 (a b c d : N) : option N :=
  match hex_val a, hex_val b, hex_val c, hex_val d with
  | Some x, Some y, Some z, Some w => Some (((x * 16 + y) * 16 + z) * 16 + w)
  | _, _, _, _ => None
  end.

Definition cons_fst {A B} (a : A) (r : option (list A * B)) : option (list A * B) :=
  match r with
  | Some (l, b) => Some (a :: l, b)
  | None => None
  end.

(** The characters of a string literal after its opening quote. *)
Fixpoint parse_string_body (s : jsstring) : option (jsstring * jsstring) :=
  match s with
  | [] => None
  | c :: r =>
      if c =? 34 then Some ([], r)
      else if c =? 92 then
        match r with
        | [] => None
        | e :: r1 =>
            if e =? 117 then
              match r1 with
              | h1 :: h2 :: h3 :: h4 :: r2 =>
                  match hex4 h1 h2 h3 h4 with
                  | Some u => cons_fst u (parse_string_body r2)
                  | None => None
                  end
              | _ => None
              end
            else
              match unescape e with
              | Some u => cons_fst u (parse_string_body r1)
              | None => None
              end
        end
      else if c <? 32 then None
      else cons_fst c (parse_string_body r)
  end.

Definition keyword (w : string) (v : json) (r : jsstring) : option (json * jsstring) :=
  match strip_prefix (js w) r with
  | Some r' => Some (v, r')
  | None => None
  end.

Fixpoint parse_value (fuel : nat) (s : jsstring) {struct fuel}
  : option (json * jsstring) :=
  match fuel with
  | O => None
  | S fuel' =>
      match skip_ws s with
      | [] => None
      | c :: r =>
          if c =? 123 then
            match skip_ws r with
            | 125 :: r' => Some (JObj [], r')
            | _ => parse_members fuel' r []
            end
          else if c =? 91 then
            match skip_ws r with
            | 93 :: r' => Some (JArr [], r')
            | _ => parse_elements fuel' r []
            end
          else if c =? 34 then
            match parse_string_body r with
            | Some (str, r') => Some (JStr str, r')
            | None => None
            end
          else if c =? 116 then keyword "rue" (JBool true) r
          else if c =? 102 then keyword "alse" (JBool false) r
          else if c =? 110 then keyword "ull" JNull r
          else
            match parse_number (c :: r) with
            | Some (n, r') => Some (JNum n, r')
            | None => None
            end
      end
  end
with parse_elements (fuel : nat) (s : jsstring) (acc : list json) {struct fuel}
  : option (json * jsstring) :=
  match fuel with
  | O => None
  | S fuel' =>
      match parse_value fuel' s with
      | Some (v, r) =>
          match skip_ws r with
          | 44 :: r' => parse_elements fuel' r' (acc ++ [v])
          | 93 :: r' => Some (JArr (acc ++ [v]), r')
          | _ => None
          end
      | None => None
      end
  end
with parse_members (fuel : nat) (s : jsstring) (acc : list (jsstring * json))
  {struct fuel} : option (json * jsstring) :=
  match fuel with
  | O => None
  | S fuel' =>
      match skip_ws s with
      | 34 :: r =>
          match parse_string_body r with
          | Some (k, r1) =>
              match skip_ws r1 with
              | 58 :: r2 =>
                  match parse_value fuel' r2 with
                  | Some (v, r3) =>
                      match skip_ws r3 with
                      | 44 :: r4 => parse_members fuel' r4 (obj_set k v acc)
                      | 125 :: r4 => Some (JObj (obj_set k v acc), r4)
                      | _ => None
                      end
                  | None => None
                  end
              | _ => None
              end
          | None => None
          end
      | _ => None
      end
  end.

(** [JSON.parse(text)]: one value, surrounded by white space only.
    Every character costs at most two units of fuel. *)
Definition JSON_parse (text : jsstring) : result json :=
  match parse_value (2 * length text + 2) text with
  | Some (v, r) =>
      match skip_ws r with
      | [] => Ok v
      | _ => Throw SyntaxError
      end
  | None => Throw SyntaxError
  end.

(** JSON source text written with ' in place of the double quote. *)
Definition json_text (s : string) : jsstring :=
  map (fun c => if c =? 39 then 34 else c) (js s).

End Json.
Import Json.

(* ===================================================================== *)
(** ** Request shaper ([services/gemini.ts]) *)
(* ===================================================================== *)

Module Gemini.

(** *** The response of the AI service, as far as the source reads it.
    Every field is optional in the SDK; [None] is [undefined]. *)

Record Blob := { blob_data : option jsstring; blob_mimeType : option jsstring }.
Record Part := { inlineData : option Blob; part_text : option jsstring }.
Record Content := { parts : option (list Part) }.
Record WebChunk := { web_title : option jsstring; web_uri : option jsstring }.
Record GroundingChunk := { web : option WebChunk }.
Record GroundingMetadata := { groundingChunks : option (list GroundingChunk) }.
Record Candidate :=
  { content : option Content; groundingMetadata : option GroundingMetadata }.
(** [text] is the SDK's getter [response.text]; its value is taken as
    given. *)
Record GenerateContentResponse :=
  { candidates : option (list Candidate); text : option jsstring }.

(** *** Requests *)

(** A piece of a template literal: fixed text or an interpolated value. *)
Inductive fragment : Type :=
| Lit (s : jsstring)
| Interp (v : json).

Inductive call_config : Type :=
| SiteAnalysisConfig              (* system instruction, googleSearch, no thinking *)
| ConceptConfig                   (* JSON mime type and the response schema *)
| ImageConfig (aspectRatio : jsstring)
| NoConfig.

Record request := {
  req_model : jsstring;
  req_inline : option (jsstring * jsstring);   (* inlineData: data, mimeType *)
  req_text : list fragment;
  req_config : call_config
}.

(** The service answers a request or rejects it. *)
Definition service := request -> result GenerateContentResponse.

(** A computation that issues requests: the requests issued, in order,
    and the outcome. *)
Definition io (A : Type) : Type := list request * result A.

Definition ret {A} (a : A) : io A := ([], Ok a).
Definition throw {A} (e : exn) : io A := ([], Throw e).
Definition bind {A B} (m : io A) (k : A -> io B) : io B :=
  match m with
  | (log, Ok a) => let (log', r) := k a in (log ++ log', r)
  | (log, Throw e) => (log, Throw e)
  end.
Definition lift {A} (r : result A) : io A := ([], r).

Notation "'let!' x := m 'in' k" := (bind m (fun x => k))
  (at level 10, x pattern, m at level 100, k at level 200).

(** [await ai.models.generateContent(req)] *)
Definition generateContent (ai : service) (req : request)
  : io GenerateContentResponse := ([req], ai req).

(** [Promise.all([p1, p2])]: both requests are issued; the result
    rejects as soon as one of them does. *)
Definition promise_all2 {A} (p1 p2 : io A) : io (A * A) :=
  (fst p1 ++ fst p2,
   match snd p1, snd p2 with
   | Ok a, Ok b => Ok (a, b)
   | Throw e, _ => Throw e
   | Ok _, Throw e => Throw e
   end).

(** [p.catch(() => v)] *)
Definition catch {A} (p : io A) (v : A) : io A :=
  match p with
  | (log, Ok a) => (log, Ok a)
  | (log, Throw _) => (log, Ok v)
  end.

(** *** Helpers of the source *)

(** [x || d] on strings, [x] possibly undefined or null. *)
Definition or_str (x : option jsstring) (d : jsstring) : jsstring :=
  match x with
  | Some v => if truthy_str v then v else d
  | None => d
  end.

(** ToString in a template literal. *)
Definition show_opt (x : option jsstring) : jsstring :=
  match x with
  | Some v => v
  | None => js "undefined"
  end.

(** [const extractImage = (response: any) => ...]; the argument is a
    response or [null]. *)
Definition extractImage (response : option GenerateContentResponse)
  : result (option jsstring) :=
  match response with
  | None => Throw TypeError                     (* null.candidates *)
  | Some response =>
      let candidates := match candidates response with
                        | Some cs => cs
                        | None => []
                        end in
      match candidates with
      | [] => Ok None
      | c0 :: _ =>
          match content c0 with
          | None => Ok None
          | Some ct =>
              match parts ct with
              | None => Ok None
              | Some ps =>
                  match List.find (fun p => bool_decide (is_Some (inlineData p))) ps with
                  | Some part =>
                      match inlineData part with
                      | Some blob =>
                          Ok (Some (js "data:image/png;base64," ++ show_opt (blob_data blob)))
                      | None => Ok None
                      end
                  | None => Ok None
                  end
              end
          end
      end
  end.

(** \s of a regular expression: white space and line terminators. *)
Definition is_regex_space (c : N) : bool :=
  ((9 <=? c) && (c <=? 13)) || (c =? 32) || (c =? 160) || (c =? 5760)
  || ((8192 <=? c) && (c <=? 8202)) || (c =? 8232) || (c =? 8233)
  || (c =? 8239) || (c =? 8287) || (c =? 12288) || (c =? 65279).

(** The characters that . does not match. *)
Definition is_line_terminator (c : N) : bool :=
  (c =? 10) || (c =? 13) || (c =? 8232) || (c =? 8233).

(** [a-zA-Z0-9] *)
Definition is_alnum (c : N) : bool :=
  ((97 <=? c) && (c <=? 122)) || ((65 <=? c) && (c <=? 90))
  || ((48 <=? c) && (c <=? 57)).

(** [a-zA-Z0-9-.+] *)
Definition is_subtype_char (c : N) : bool :=
  is_alnum c || (c =? 45) || (c =? 46) || (c =? 43).

(** [s.match(/^data:([a-zA-Z0-9]+\/[a-zA-Z0-9-.+]+);base64,(.+)$/)]:
    groups 1 and 2.  Neither class contains the character that must
    follow it, so each class matches its longest run and nothing else
    can match. *)
Definition match_data_uri (s : jsstring) : option (jsstring * jsstring) :=
  match strip_prefix (js "data:") s with
  | None => None
  | Some s1 =>
      let (type, s2) := span is_alnum s1 in
      match type, s2 with
      | _ :: _, 47 :: s3 =>
          let (subtype, s4) := span is_subtype_char s3 in
          match subtype, strip_prefix (js ";base64,") s4 with
          | _ :: _, Some payload =>
              if truthy_str payload
                 && forallb (fun c => negb (is_line_terminator c)) payload
              then Some (type ++ 47 :: subtype, payload)
              else None
          | _, _ => None
          end
      | _, _ => None
      end
  end.

(** [s.match(/data:([^;]+)/)]: group 1 of the leftmost match. *)
Fixpoint match_header (s : jsstring) : option jsstring :=
  let here :=
    match strip_prefix (js "data:") s with
    | Some rest =>
        match fst (span (fun c => negb (c =? 59)) rest) with
        | [] => None
        | g => Some g
        end
    | None => None
    end in
  match here, s with
  | Some g, _ => Some g
  | None, [] => None
  | None, _ :: s' => match_header s'
  end.

(** [parts[0]] and [parts.slice(1).join(',')] of [s.split(',')]: the
    text before the first comma and the text after it. *)
Fixpoint split_comma (s : jsstring) : jsstring * jsstring :=
  match s with
  | [] => ([], [])
  | c :: s' =>
      if c =? 44 then ([], s')
      else let (a, b) := split_comma s' in (c :: a, b)
  end.

Record ParsedImage := { mimeType : jsstring; data : jsstring }.

(** [s.replace(/\s/g, '')] *)
Definition strip_whitespace (s : jsstring) : jsstring :=
  List.filter (fun c => negb (is_regex_space c)) s.

(** [s.includes(',')] *)
Definition includes_comma (s : jsstring) : bool :=
  existsb (fun c => c =? 44) s.

(** [const parseBase64 = (base64String: string) => ...] *)
Definition parseBase64 (base64String : jsstring) : ParsedImage :=
  let cleanString := strip_whitespace base64String in
  match match_data_uri cleanString with
  | Some (m1, m2) => {| mimeType := m1; data := m2 |}
  | None =>
      if includes_comma cleanString then
        let (part0, rest) := split_comma cleanString in
        {| mimeType := match match_header part0 with
                       | Some h => h
                       | None => js "image/jpeg"
                       end;
           data := rest |}
      else {| mimeType := js "image/jpeg"; data := cleanString |}
  end.

(** *** Types of [types.ts] *)

Inductive ProjectType := RESIDENTIAL | COMMERCIAL | MIXED_USE | VILLA.

Inductive ArchitecturalStyle :=
  MODERN | MINIMALIST | LUXURY | TRADITIONAL | ECO_FRIENDLY | INDUSTRIAL.

Inductive BudgetRange := Low | Medium | High.

Definition ProjectType_value (t : ProjectType) : jsstring :=
  match t with
  | RESIDENTIAL => js "Residential"
  | COMMERCIAL => js "Commercial"
  | MIXED_USE => js "Mixed-Use"
  | VILLA => js "Villa"
  end.

Definition ArchitecturalStyle_value (t : ArchitecturalStyle) : jsstring :=
  match t with
  | MODERN => js "Modern"
  | MINIMALIST => js "Minimalist"
  | LUXURY => js "Luxury"
  | TRADITIONAL => js "Traditional"
  | ECO_FRIENDLY => js "Eco-Friendly"
  | INDUSTRIAL => js "Industrial"
  end.

Record DesignPreferences := {
  type : ProjectType;
  style : ArchitecturalStyle;
  floors : N;
  budgetRange : BudgetRange;
  materials : list jsstring
}.

Record Visualizations := {
  exterior : jsstring;
  interior : jsstring;
  plan : jsstring
}.

Record DesignVersion := {
  version_id : jsstring;
  version_name : jsstring;
  version_timestamp : jsstring;
  version_visualizations : Visualizations;
  version_preferences : DesignPreferences
}.

(** The four fields taken from the service's JSON are whatever values
    the JSON holds. *)
Record ArchitecturalDesign := {
  name : json;
  description : json;
  floorPlanJson : json;
  costs : json;
  id : jsstring;
  siteAnalysis : jsstring;
  preferences : DesignPreferences;
  createdAt : jsstring;
  versions : list DesignVersion;
  visualizations : Visualizations
}.

Record Reference := { title : jsstring; uri : option jsstring }.

Record SiteDiscovery := { analysis : jsstring; references : list Reference }.

(** [Math.random().toString(36).substring(2, 11)] and
    [new Date().toISOString()], as given by the environment. *)
Record Env := { random_id : jsstring; now_iso : jsstring }.

(** [l.join(sep)] *)
Fixpoint join (sep : jsstring) (l : list jsstring) : jsstring :=
  match l with
  | [] => []
  | x :: r =>
      match r with
      | [] => x
      | _ => x ++ sep ++ join sep r
      end
  end.

Definition flash : jsstring := js "gemini-3-flash-preview".
Definition flash_image : jsstring := js "gemini-2.5-flash-image".

(** *** 1. [analyzeSite] *)

Definition analyzeSite (ai : service) (base64Image : jsstring) : io SiteDiscovery :=
  let p := parseBase64 base64Image in
  if negb (truthy_str (data p)) then throw (Error "Invalid image data")
  else
    let! response := generateContent ai
      {| req_model := flash;
         req_inline := Some (data p, mimeType p);
         req_text := [Lit (js "Analyze this photo of a building/land. 1. Identify terrain/geographic markers. 2. Suggest local architectural styles. 3. List design principles. Be technical but extremely concise.")];
         req_config := SiteAnalysisConfig |} in
    let chunks :=
      match candidates response with
      | Some (c0 :: _) =>
          match groundingMetadata c0 with
          | Some gm => groundingChunks gm
          | None => None
          end
      | _ => None
      end in
    let sources :=
      match chunks with
      | Some cs =>
          List.filter (fun s => match uri s with
                                | Some u => truthy_str u
                                | None => false
                                end)
            (map (fun chunk =>
                    {| title := or_str (match web chunk with
                                        | Some w => web_title w
                                        | None => None
                                        end) (js "Architectural Source");
                       uri := match web chunk with
                              | Some w => web_uri w
                              | None => None
                              end |}) cs)
      | None => []
      end in
    ret {| analysis := or_str (text response) (js "Site analysis finalized.");
           references := sources |}.

(** *** 3. [promptEditImage] *)

Definition promptEditImage (ai : service) (base64Image prompt : jsstring)
  : io jsstring :=
  let p := parseBase64 base64Image in
  let! response := generateContent ai
    {| req_model := flash_image;
       req_inline := Some (data p, mimeType p);
       req_text := [Lit (js "Modify this actual site photo to simulate a ");
                    Lit prompt;
                    Lit (js ". Ensure structural integrity is maintained while replacing buildings with realistic architectural designs.")];
       req_config := NoConfig |} in
  let! img := lift (extractImage (Some response)) in
  ret (or_str img base64Image).

(** *** 4. [generateDesignConcept] *)

Definition default_name : json := JStr (js "Real-World Synthesis Design").
Definition default_description : json :=
  JStr (js "Synthesized simulation based on real-world architectural data.").
Definition default_floorPlanJson : json :=
  JObj [(js "rooms", JArr []); (js "totalArea", JStr (js "N/A"));
        (js "analysis", JStr [])].
Definition default_costs : json :=
  JObj [(js "estimatedTotal", JNum {| neg := false; mant := 0; exp10 := 0 |});
        (js "breakdown", JArr [])].

Definition placeholder_exterior : jsstring :=
  js "https://images.unsplash.com/photo-1600585154340-be6161a56a0c".
Definition placeholder_interior : jsstring :=
  js "https://images.unsplash.com/photo-1600210492486-724fe5c67fb0".
Definition placeholder_plan : jsstring :=
  js "https://images.unsplash.com/photo-1503387762-592deb58ef4e".

Definition concept_request (preferences : DesignPreferences)
  (siteDiscovery : SiteDiscovery) : request :=
  {| req_model := flash;
     req_inline := None;
     req_text :=
       [Lit (js "Based on the Site Discovery Analysis: ");
        Lit (analysis siteDiscovery);
        Lit (js ". 
  Synthesize a ");
        Lit (ArchitecturalStyle_value (style preferences));
        Lit (js " ");
        Lit (ProjectType_value (type preferences));
        Lit (js " design. 
  CRITICAL: You MUST incorporate logic from these references: ");
        Lit (join (js ", ")
               (map (fun r => match uri r with Some u => u | None => [] end)
                  (references siteDiscovery)));
        Lit (js ".
  Return valid JSON matching the specified schema.")];
     req_config := ConceptConfig |}.

Definition exterior_request (p : ParsedImage) (name : json)
  (preferences : DesignPreferences) : request :=
  {| req_model := flash_image;
     req_inline := Some (data p, mimeType p);
     req_text :=
       [Lit (js "A realistic architectural simulation of ");
        Interp name;
        Lit (js ". Style: ");
        Lit (ArchitecturalStyle_value (style preferences));
        Lit (js ". Materials: ");
        Lit (join (js ", ") (materials preferences));
        Lit (js ". Maintain horizon line and terrain.")];
     req_config := ImageConfig (js "16:9") |}.

Definition plan_request (p : ParsedImage) (name : json) : request :=
  {| req_model := flash_image;
     req_inline := Some (data p, mimeType p);
     req_text :=
       [Lit (js "2D architectural site plan for ");
        Interp name;
        Lit (js " integrated into the terrain.")];
     req_config := ImageConfig (js "4:3") |}.

(** [let designData; try { designData = JSON.parse(conceptResponse.text
    || "{}"); } catch (e) { designData = {}; }] *)
Definition parse_designData (conceptResponse : GenerateContentResponse) : json :=
  match JSON_parse (or_str (text conceptResponse) (js "{}")) with
  | Ok v => v
  | Throw _ => JObj []
  end.

Record FinalizedDesignData := {
  fin_name : json;
  fin_description : json;
  fin_floorPlanJson : json;
  fin_costs : json
}.

(** [const finalizedDesignData = { name: designData.name || ..., ... }] *)
Definition finalizedDesignData (designData : json) : result FinalizedDesignData :=
  let? d_name := get_prop designData (js "name") in
  let? d_description := get_prop designData (js "description") in
  let? d_floorPlanJson := get_prop designData (js "floorPlanJson") in
  let? d_costs := get_prop designData (js "costs") in
  Ok {| fin_name := or_default d_name default_name;
        fin_description := or_default d_description default_description;
        fin_floorPlanJson := or_default d_floorPlanJson default_floorPlanJson;
        fin_costs := or_default d_costs default_costs |}.

Definition generateDesignConcept (ai : service) (env : Env)
  (base64Image : jsstring) (preferences : DesignPreferences)
  (siteDiscovery : SiteDiscovery) : io ArchitecturalDesign :=
  let p := parseBase64 base64Image in
  let! conceptResponse :=
    generateContent ai (concept_request preferences siteDiscovery) in
  let designData := parse_designData conceptResponse in
  let! fin := lift (finalizedDesignData designData) in
  let! (extRes, planRes) :=
    catch
      (let! (a, b) :=
         promise_all2
           (generateContent ai (exterior_request p (fin_name fin) preferences))
           (generateContent ai (plan_request p (fin_name fin))) in
       ret (Some a, Some b))
      (None, None) in
  let! ext := lift (extractImage extRes) in
  let! pln := lift (extractImage planRes) in
  ret {| name := fin_name fin;
         description := fin_description fin;
         floorPlanJson := fin_floorPlanJson fin;
         costs := fin_costs fin;
         id := random_id env;
         siteAnalysis := analysis siteDiscovery;
         preferences := preferences;
         createdAt := now_iso env;
         versions := [];
         visualizations :=
           {| exterior := or_str ext placeholder_exterior;
              interior := placeholder_interior;
              plan := or_str pln placeholder_plan |} |}.

(** *** The shape a design is expected to have *)

Definition is_nonempty_string (v : json) : bool :=
  match v with JStr (_ :: _) => true | _ => false end.
Definition is_string (v : json) : bool :=
  match v with JStr _ => true | _ => false end.
Definition is_number (v : json) : bool :=
  match v with JNum _ => true | _ => false end.
Definition is_array (v : json) : bool :=
  match v with JArr _ => true | _ => false end.

(** The own property [k] of [v], if [v] is an object that has it. *)
Definition own (v : json) (k : jsstring) : option json :=
  match v with
  | JObj fields => assoc k fields
  | _ => None
  end.

Definition has (p : json -> bool) (k : string) (v : json) : bool :=
  match own v (js k) with
  | Some x => p x
  | None => false
  end.

Definition well_formed (d : ArchitecturalDesign) : bool :=
  is_nonempty_string (name d) && is_nonempty_string (description d)
  && has is_array "rooms" (floorPlanJson d)
  && has is_string "totalArea" (floorPlanJson d)
  && has is_number "estimatedTotal" (costs d)
  && has is_array "breakdown" (costs d).

(** *** Services used to exercise the operations *)

Definition image_response (payload : string) : GenerateContentResponse :=
  {| candidates :=
       Some [{| content :=
                  Some {| parts :=
                            Some [{| inlineData :=
                                       Some {| blob_data := Some (js payload);
                                               blob_mimeType := Some (js "image/png") |};
                                     part_text := None |}] |};
                groundingMetadata := None |}];
     text := None |}.

Definition text_response (t : jsstring) : GenerateContentResponse :=
  {| candidates := Some []; text := Some t |}.

Definition is_image_request (req : request) : bool :=
  match req_config req with ImageConfig _ => true | _ => false end.

(** Answers the concept request with [t] and every image request with
    an image. *)
Definition service_answering (t : jsstring) : service :=
  fun req =>
    if is_image_request req then Ok (image_response "iVBORw0KGgo=")
    else Ok (text_response t).

(** Answers the concept request with [t] and rejects every image
    request. *)
Definition service_without_images (t : jsstring) : service :=
  fun req =>
    if is_image_request req then Throw ServiceError
    else Ok (text_response t).

Definition sample_env : Env :=
  {| random_id := js "k3x9q0z1a"; now_iso := js "2025-01-01T00:00:00.000Z" |}.

Definition sample_preferences : DesignPreferences :=
  {| type := RESIDENTIAL; style := MODERN; floors := 2; budgetRange := Medium;
     materials := [js "Glass"; js "Concrete"; js "Timber"] |}.

Definition sample_discovery : SiteDiscovery :=
  {| analysis := js "Flat coastal plot."; references := [] |}.

End Gemini.

(* ===================================================================== *)
(** ** Capture flow (the [CameraCapture] component) *)
(* ===================================================================== *)

Module CameraCapture.

Inductive Phase := aligning | ready.
Inductive FacingMode := user | environment.

Record State := {
  phase : Phase;
  syncProgress : N;
  error : option string;
  facingMode : FacingMode
}.

(** The [useState] initial values. *)
Definition init : State :=
  {| phase := aligning; syncProgress := 0; error := None;
     facingMode := environment |}.

(** The updater passed to [setSyncProgress] by the interval;
    [r] is [Math.floor(Math.random() * 15)]. *)
Definition tick (prev r : N) : N :=
  if 100 <=? prev then 100 else prev + r.

Definition no_error (s : State) : bool :=
  match error s with None => true | Some _ => false end.

Definition is_aligning (s : State) : bool :=
  match phase s with aligning => true | ready => false end.

(** The interval exists while [phase === 'aligning' && !error]. *)
Definition interval_running (s : State) : bool :=
  is_aligning s && no_error s.

(** The "Set Point" button is rendered while aligning without error and
    is [disabled] while [syncProgress < 100]. *)
Definition set_point_enabled (s : State) : bool :=
  no_error s && is_aligning s && negb (syncProgress s <? 100).

(** The capture, switch-camera and re-align buttons are rendered in the
    other branch: no error and phase ready. *)
Definition capture_control (s : State) : bool :=
  no_error s && negb (is_aligning s).

Inductive Event : Type :=
| Tick (r : N)                    (* the 500 ms interval fires *)
| ClickSetPoint                   (* setPhase('ready') *)
| ClickCapture (frame : jsstring) (* captureFrame; [frame] is the data URL *)
| ClickRealign                    (* setPhase('aligning') *)
| ClickSwitchCamera               (* setFacingMode, then startCamera: setError(null) *)
| CameraFailed (msg : string).    (* startCamera fails: setError(msg) *)

Definition set_phase (p : Phase) (s : State) : State :=
  {| phase := p; syncProgress := syncProgress s; error := error s;
     facingMode := facingMode s |}.

(** One event; the second component is the frame handed to [onCapture].
    An event whose control is not rendered or is disabled, a tick while
    no interval is running, and a random step outside 0..14 do nothing. *)
Definition step (s : State) (e : Event) : State * option jsstring :=
  match e with
  | Tick r =>
      if interval_running s && (r <? 15) then
        ({| phase := phase s; syncProgress := tick (syncProgress s) r;
            error := error s; facingMode := facingMode s |}, None)
      else (s, None)
  | ClickSetPoint =>
      if set_point_enabled s then (set_phase ready s, None) else (s, None)
  | ClickCapture frame =>
      if capture_control s then (s, Some frame) else (s, None)
  | ClickRealign =>
      if capture_control s then (set_phase aligning s, None) else (s, None)
  | ClickSwitchCamera =>
      if capture_control s then
        ({| phase := phase s; syncProgress := syncProgress s; error := None;
            facingMode := match facingMode s with
                          | user => environment
                          | environment => user
                          end |}, None)
      else (s, None)
  | CameraFailed msg =>
      ({| phase := phase s; syncProgress := syncProgress s; error := Some msg;
          facingMode := facingMode s |}, None)
  end.

(** The state after a sequence of events, with the frames captured. *)
Fixpoint run (s : State) (es : list Event) : State * list jsstring :=
  match es with
  | [] => (s, [])
  | e :: es' =>
      let (s1, out) := step s e in
      let (s2, outs) := run s1 es' in
      (s2, match out with Some f => f :: outs | None => outs end)
  end.

End CameraCapture.

(* ===================================================================== *)
(** ** Pipeline orchestrator ([startDiscovery], [startSynthesis]) *)
(* ===================================================================== *)

Module App.
Import Gemini.

Inductive ViewMode := landing | dashboard | wizard | detail | inspiration.

Record State := {
  viewMode : ViewMode;
  step : N;
  uploadedImage : option jsstring;
  siteDiscovery : option SiteDiscovery;
  preferences : DesignPreferences;
  isGenerating : bool;
  generatedDesign : option ArchitecturalDesign;
  projects : list ArchitecturalDesign;
  currentCostData : option json
}.

Definition init : State :=
  {| viewMode := landing; step := 0; uploadedImage := None;
     siteDiscovery := None;
     preferences := {| type := RESIDENTIAL; style := MODERN; floors := 2;
                       budgetRange := Medium;
                       materials := [js "Glass"; js "Concrete"; js "Timber"] |};
     isGenerating := false; generatedDesign := None; projects := [];
     currentCostData := None |}.

(** A call of the request shaper that has been issued and not yet
    settled. *)
Inductive Call : Type :=
| CallAnalyzeSite (img : jsstring)
| CallGenerateDesignConcept (img : jsstring) (prefs : DesignPreferences)
    (discovery : SiteDiscovery).

(** [startDiscovery(img)] up to its [await]. *)
Definition startDiscovery (img : jsstring) (s : State) : State * Call :=
  ({| viewMode := wizard;                  (* setViewMode('wizard') *)
      step := 0;                           (* setStep(0) *)
      uploadedImage := Some img;           (* setUploadedImage(img) *)
      siteDiscovery := siteDiscovery s;
      preferences := preferences s;
      isGenerating := true;                (* setIsGenerating(true) *)
      generatedDesign := generatedDesign s;
      projects := projects s;
      currentCostData := currentCostData s |},
   CallAnalyzeSite img).

(** [startDiscovery] after its [await]: [try] body, [catch], [finally]. *)
Definition startDiscovery_settled (r : result SiteDiscovery) (s : State) : State :=
  match r with
  | Ok discovery =>
      {| viewMode := viewMode s;
         step := 1;                           (* setStep(1) *)
         uploadedImage := uploadedImage s;
         siteDiscovery := Some discovery;     (* setSiteDiscovery(discovery) *)
         preferences := preferences s;
         isGenerating := false;               (* finally *)
         generatedDesign := generatedDesign s;
         projects := projects s;
         currentCostData := currentCostData s |}
  | Throw _ =>
      {| viewMode := viewMode s; step := step s;
         uploadedImage := uploadedImage s;
         siteDiscovery := siteDiscovery s;
         preferences := preferences s;
         isGenerating := false;               (* finally *)
         generatedDesign := generatedDesign s;
         projects := projects s;
         currentCostData := currentCostData s |}
  end.

(** [startSynthesis()] up to its [await]; [None] when the guard returns. *)
Definition startSynthesis (s : State) : State * option Call :=
  match uploadedImage s, siteDiscovery s with
  | Some img, Some discovery =>
      if truthy_str img then
        ({| viewMode := viewMode s;
            step := 2;                        (* setStep(2) *)
            uploadedImage := uploadedImage s;
            siteDiscovery := siteDiscovery s;
            preferences := preferences s;
            isGenerating := true;             (* setIsGenerating(true) *)
            generatedDesign := generatedDesign s;
            projects := projects s;
            currentCostData := currentCostData s |},
         Some (CallGenerateDesignConcept img (preferences s) discovery))
      else (s, None)
  | _, _ => (s, None)
  end.

(** [startSynthesis] after its [await]. *)
Definition startSynthesis_settled (r : result ArchitecturalDesign) (s : State)
  : State :=
  match r with
  | Ok design =>
      {| viewMode := detail;                       (* setViewMode('detail') *)
         step := step s;
         uploadedImage := uploadedImage s;
         siteDiscovery := siteDiscovery s;
         preferences := preferences s;
         isGenerating := false;                    (* finally *)
         generatedDesign := Some design;           (* setGeneratedDesign *)
         projects := design :: projects s;         (* [design, ...prev] *)
         currentCostData := Some (costs design) |} (* setCurrentCostData *)
  | Throw _ =>
      {| viewMode := viewMode s; step := step s;
         uploadedImage := uploadedImage s;
         siteDiscovery := siteDiscovery s;
         preferences := preferences s;
         isGenerating := false;
         generatedDesign := generatedDesign s;
         projects := projects s;
         currentCostData := currentCostData s |}
  end.

(** The component with its calls in flight. *)
Record Sys := { app : State; pending : list Call }.

Definition boot : Sys := {| app := init; pending := [] |}.

Inductive Event : Type :=
| Capture (img : jsstring)            (* onCapture / file reader onload *)
| ClickStartSynthesis
| Settle (k : nat) (ai : service) (env : Env)
                                      (* the k-th call in flight settles *)
| SetViewMode (v : ViewMode)
| SetPreferences (p : DesignPreferences)
| OpenProject (i : nat).              (* a card of the dashboard *)

(** What can be observed of a run. *)
Inductive Obs : Type :=
| Issued (c : Call)
| Discovered (d : SiteDiscovery)      (* analyzeSite fulfilled with d *)
| DiscoveryFailed
| Synthesized (d : ArchitecturalDesign)
| SynthesisFailed
| Requests (l : list request).        (* network requests of a settled call *)

Definition set_view (v : ViewMode) (s : State) : State :=
  {| viewMode := v; step := step s; uploadedImage := uploadedImage s;
     siteDiscovery := siteDiscovery s; preferences := preferences s;
     isGenerating := isGenerating s; generatedDesign := generatedDesign s;
     projects := projects s; currentCostData := currentCostData s |}.

Definition set_preferences (p : DesignPreferences) (s : State) : State :=
  {| viewMode := viewMode s; step := step s; uploadedImage := uploadedImage s;
     siteDiscovery := siteDiscovery s; preferences := p;
     isGenerating := isGenerating s; generatedDesign := generatedDesign s;
     projects := projects s; currentCostData := currentCostData s |}.

Definition open_project (p : ArchitecturalDesign) (s : State) : State :=
  {| viewMode := detail; step := step s; uploadedImage := uploadedImage s;
     siteDiscovery := siteDiscovery s; preferences := preferences s;
     isGenerating := isGenerating s; generatedDesign := Some p;
     projects := projects s; currentCostData := Some (costs p) |}.

Definition sys_step (y : Sys) (e : Event) : Sys * list Obs :=
  match e with
  | Capture img =>
      let (s', c) := startDiscovery img (app y) in
      ({| app := s'; pending := pending y ++ [c] |}, [Issued c])
  | ClickStartSynthesis =>
      match startSynthesis (app y) with
      | (s', Some c) => ({| app := s'; pending := pending y ++ [c] |}, [Issued c])
      | (s', None) => ({| app := s'; pending := pending y |}, [])
      end
  | Settle k ai env =>
      match pending y !! k with
      | None => (y, [])
      | Some (CallAnalyzeSite img) =>
          let (reqs, r) := analyzeSite ai img in
          ({| app := startDiscovery_settled r (app y);
              pending := delete k (pending y) |},
           [Requests reqs;
            match r with Ok d => Discovered d | Throw _ => DiscoveryFailed end])
      | Some (CallGenerateDesignConcept img prefs d) =>
          let (reqs, r) := generateDesignConcept ai env img prefs d in
          ({| app := startSynthesis_settled r (app y);
              pending := delete k (pending y) |},
           [Requests reqs;
            match r with Ok d => Synthesized d | Throw _ => SynthesisFailed end])
      end
  | SetViewMode v => ({| app := set_view v (app y); pending := pending y |}, [])
  | SetPreferences p =>
      ({| app := set_preferences p (app y); pending := pending y |}, [])
  | OpenProject i =>
      match projects (app y) !! i with
      | Some p => ({| app := open_project p (app y); pending := pending y |}, [])
      | None => (y, [])
      end
  end.

Fixpoint sys_run (y : Sys) (es : list Event) : Sys * list Obs :=
  match es with
  | [] => (y, [])
  | e :: es' =>
      let (y1, o1) := sys_step y e in
      let (y2, o2) := sys_run y1 es' in
      (y2, o1 ++ o2)
  end.

(** The discovery most recently obtained in a trace. *)
Fixpoint last_discovery (tr : list Obs) (acc : option SiteDiscovery)
  : option SiteDiscovery :=
  match tr with
  | [] => acc
  | Discovered d :: tr' => last_discovery tr' (Some d)
  | _ :: tr' => last_discovery tr' acc
  end.

End App.

(* ===================================================================== *)
(** ** Realtime voice session ([handleVoiceConsult], [stopVoiceSession]) *)
(* ===================================================================== *)

Module Voice.
Import Gemini.

(** Times of the audio clock.  The source computes with doubles; all
    that is used of them is listed here, and holds of doubles (no NaN
    arises) as well as of the rationals. *)
Class Timeline (T : Type) := {
  tle : T -> T -> Prop;
  tzero : T;
  tadd : T -> T -> T;                 (* a + b *)
  tmax : T -> T -> T;                 (* Math.max(a, b) *)
  tdur : N -> N -> T;                 (* frames / sampleRate *)
  tle_refl : forall a, tle a a;
  tle_trans : forall a b c, tle a b -> tle b c -> tle a c;
  tmax_l : forall a b, tle a (tmax a b);
  tmax_r : forall a b, tle b (tmax a b);
  tadd_nonneg : forall a d, tle tzero d -> tle a (tadd a d);
  tdur_nonneg : forall n r, tle tzero (tdur n r)
}.

Record AudioBuffer := { buffer_length : N; buffer_sampleRate : N }.

(** [audioBuffer.duration] *)
Definition duration {T} `{Timeline T} (b : AudioBuffer) : T :=
  tdur (buffer_length b) (buffer_sampleRate b).

(** [async function decodeAudioData(data, ctx, sampleRate, numChannels)].
    An [Int16Array] over a buffer of odd length throws; so does
    [createBuffer] with no frame.  The sample values are not kept. *)
Definition decodeAudioData (data : list Byte.byte) (sampleRate numChannels : N)
  : result AudioBuffer :=
  let n := N.of_nat (length data) in
  if N.odd n then Throw RangeError
  else
    let frameCount := (n / 2) / numChannels in
    if frameCount =? 0 then Throw NotSupportedError
    else Ok {| buffer_length := frameCount; buffer_sampleRate := sampleRate |}.

Record ServerContent := { modelTurn : option Content }.
Record LiveServerMessage := { serverContent : option ServerContent }.

(** [message.serverContent?.modelTurn?.parts[0]?.inlineData?.data] *)
Definition message_audio (message : LiveServerMessage)
  : result (option jsstring) :=
  match serverContent message with
  | None => Ok None
  | Some sc =>
      match modelTurn sc with
      | None => Ok None
      | Some turn =>
          match parts turn with
          | None => Throw TypeError             (* undefined[0] *)
          | Some [] => Ok None
          | Some (p0 :: _) =>
              match inlineData p0 with
              | None => Ok None
              | Some blob => Ok (blob_data blob)
              end
          end
      end
  end.

(** A [source.start(when)] that has been issued. *)
Record Chunk (T : Type) := {
  chunk_source : nat;
  chunk_ctx : nat;
  chunk_start : T;       (* the [when] passed to [start] *)
  chunk_duration : T;
  chunk_clock : T        (* [ctx.currentTime] read for this chunk *)
}.
Arguments chunk_source {T}.
Arguments chunk_ctx {T}.
Arguments chunk_start {T}.
Arguments chunk_duration {T}.
Arguments chunk_clock {T}.

Definition chunk_end {T} `{Timeline T} (c : Chunk T) : T :=
  tadd (chunk_start c) (chunk_duration c).

(** An [onmessage] handler suspended at its [await]. *)
Record Decoding (T : Type) := {
  dec_ctx : nat;
  dec_buffer : AudioBuffer;
  dec_clock : T
}.
Arguments dec_ctx {T}.
Arguments dec_buffer {T}.
Arguments dec_clock {T}.

(** A [handleVoiceConsult] suspended at one of its two [await]s. *)
Inductive Flow : Type :=
| AwaitingMic                                     (* getUserMedia *)
| AwaitingSession (stream inputCtx outputCtx session : nat). (* ai.live.connect *)

(** [useState] flags. *)
Record Ui := { isVoiceConsultOpen : bool; isConnecting : bool }.

(** [useRef] cells. *)
Record Refs (T : Type) := {
  liveSessionRef : option nat;
  inputAudioCtxRef : option nat;
  outputAudioCtxRef : option nat;
  nextStartTimeRef : T;
  audioSourcesRef : gset nat;
  micStreamRef : option nat
}.
Arguments liveSessionRef {T}.
Arguments inputAudioCtxRef {T}.
Arguments outputAudioCtxRef {T}.
Arguments nextStartTimeRef {T}.
Arguments audioSourcesRef {T}.
Arguments micStreamRef {T}.

(** The browser and the service: objects are numbered as they are
    created. *)
Record Browser (T : Type) := {
  fresh : nat;
  flows : gmap nat Flow;
  decoding : gmap nat (Decoding T);
  open_sessions : gset nat;      (* onopen has fired, not closed since *)
  closed_sessions : gset nat;    (* close() called or channel closed *)
  stopped_streams : gset nat;    (* every track stopped *)
  closed_ctxs : gset nat;
  stopped_sources : gset nat;
  schedule : list (Chunk T)      (* in the order of the [start] calls *)
}.
Arguments fresh {T}.
Arguments flows {T}.
Arguments decoding {T}.
Arguments open_sessions {T}.
Arguments closed_sessions {T}.
Arguments stopped_streams {T}.
Arguments closed_ctxs {T}.
Arguments stopped_sources {T}.
Arguments schedule {T}.

Record State (T : Type) := { ui : Ui; refs : Refs T; browser : Browser T }.
Arguments ui {T}.
Arguments refs {T}.
Arguments browser {T}.

Definition opt_set (o : option nat) : gset nat :=
  match o with Some n => {[ n ]} | None => ∅ end.

Section Machine.
Context {T : Type} `{Timeline T}.

Definition init : State T :=
  {| ui := {| isVoiceConsultOpen := false; isConnecting := false |};
     refs := {| liveSessionRef := None; inputAudioCtxRef := None;
                outputAudioCtxRef := None; nextStartTimeRef := tzero;
                audioSourcesRef := ∅; micStreamRef := None |};
     browser := {| fresh := 0; flows := ∅; decoding := ∅;
                   open_sessions := ∅; closed_sessions := ∅;
                   stopped_streams := ∅; closed_ctxs := ∅;
                   stopped_sources := ∅; schedule := [] |} |}.

(** [stopVoiceSession]: the refs keep their objects. *)
Definition stopVoiceSession (s : State T) : State T :=
  let r := refs s in
  let b := browser s in
  {| ui := {| isVoiceConsultOpen := false;     (* setIsVoiceConsultOpen(false) *)
              isConnecting := false |};        (* setIsConnecting(false) *)
     refs := {| liveSessionRef := liveSessionRef r;
                inputAudioCtxRef := inputAudioCtxRef r;
                outputAudioCtxRef := outputAudioCtxRef r;
                nextStartTimeRef := nextStartTimeRef r;
                audioSourcesRef := ∅;           (* audioSourcesRef.current.clear() *)
                micStreamRef := micStreamRef r |};
     browser :=
       {| fresh := fresh b;
          flows := flows b;
          decoding := decoding b;
          (* liveSessionRef.current.close() *)
          open_sessions := open_sessions b ∖ opt_set (liveSessionRef r);
          closed_sessions := closed_sessions b ∪ opt_set (liveSessionRef r);
          (* getTracks().forEach(t => t.stop()) *)
          stopped_streams := stopped_streams b ∪ opt_set (micStreamRef r);
          (* inputAudioCtxRef.current.close(), outputAudioCtxRef.current.close() *)
          closed_ctxs := closed_ctxs b ∪ opt_set (inputAudioCtxRef r)
                           ∪ opt_set (outputAudioCtxRef r);
          (* forEach(s => s.stop()) *)
          stopped_sources := stopped_sources b ∪ audioSourcesRef r;
          schedule := schedule b |} |}.

Definition set_flows (fl : gmap nat Flow) (b : Browser T) : Browser T :=
  {| fresh := fresh b; flows := fl; decoding := decoding b;
     open_sessions := open_sessions b; closed_sessions := closed_sessions b;
     stopped_streams := stopped_streams b; closed_ctxs := closed_ctxs b;
     stopped_sources := stopped_sources b; schedule := schedule b |}.

(** [handleVoiceConsult] up to its first [await]. *)
Definition handleVoiceConsult (s : State T) : State T :=
  if isVoiceConsultOpen (ui s) || isConnecting (ui s) then stopVoiceSession s
  else
    let b := browser s in
    {| ui := {| isVoiceConsultOpen := isVoiceConsultOpen (ui s);
                isConnecting := true |};       (* setIsConnecting(true) *)
       refs := refs s;
       browser :=
         {| fresh := S (fresh b);
            flows := <[fresh b := AwaitingMic]> (flows b);
            decoding := decoding b;
            open_sessions := open_sessions b;
            closed_sessions := closed_sessions b;
            stopped_streams := stopped_streams b;
            closed_ctxs := closed_ctxs b;
            stopped_sources := stopped_sources b;
            schedule := schedule b |} |}.

(** After [getUserMedia] is fulfilled, up to [await sessionPromise]. *)
Definition mic_granted (f : nat) (s : State T) : State T :=
  let r := refs s in
  let b := browser s in
  let stream := fresh b in
  let inputCtx := S (fresh b) in
  let outputCtx := S (S (fresh b)) in
  let session := S (S (S (fresh b))) in
  {| ui := ui s;
     refs := {| liveSessionRef := liveSessionRef r;
                inputAudioCtxRef := Some inputCtx;
                outputAudioCtxRef := Some outputCtx;
                nextStartTimeRef := nextStartTimeRef r;
                audioSourcesRef := audioSourcesRef r;
                micStreamRef := Some stream |};
     browser :=
       {| fresh := S (S (S (S (fresh b))));
          flows := <[f := AwaitingSession stream inputCtx outputCtx session]> (flows b);
          decoding := decoding b;
          open_sessions := open_sessions b;
          closed_sessions := closed_sessions b;
          stopped_streams := stopped_streams b;
          closed_ctxs := closed_ctxs b;
          stopped_sources := stopped_sources b;
          schedule := schedule b |} |}.

(** The [catch] block: [setIsConnecting(false); stopVoiceSession()]. *)
Definition connect_failed (f : nat) (s : State T) : State T :=
  stopVoiceSession
    {| ui := ui s; refs := refs s;
       browser := set_flows (delete f (flows (browser s))) (browser s) |}.

(** The [onopen] callback, then [liveSessionRef.current = await
    sessionPromise]. *)
Definition session_opened (f session : nat) (s : State T) : State T :=
  let r := refs s in
  let b := browser s in
  {| ui := {| isVoiceConsultOpen := true; isConnecting := false |};
     refs := {| liveSessionRef := Some session;
                inputAudioCtxRef := inputAudioCtxRef r;
                outputAudioCtxRef := outputAudioCtxRef r;
                nextStartTimeRef := nextStartTimeRef r;
                audioSourcesRef := audioSourcesRef r;
                micStreamRef := micStreamRef r |};
     browser :=
       {| fresh := fresh b;
          flows := delete f (flows b);
          decoding := decoding b;
          open_sessions := open_sessions b ∪ {[ session ]};
          closed_sessions := closed_sessions b;
          stopped_streams := stopped_streams b;
          closed_ctxs := closed_ctxs b;
          stopped_sources := stopped_sources b;
          schedule := schedule b |} |}.

(** The [onclose] / [onerror] callback of a session. *)
Definition channel_down (session : nat) (s : State T) : State T :=
  let b := browser s in
  stopVoiceSession
    {| ui := ui s; refs := refs s;
       browser :=
         {| fresh := fresh b; flows := flows b; decoding := decoding b;
            open_sessions := open_sessions b ∖ {[ session ]};
            closed_sessions := closed_sessions b ∪ {[ session ]};
            stopped_streams := stopped_streams b;
            closed_ctxs := closed_ctxs b;
            stopped_sources := stopped_sources b;
            schedule := schedule b |} |}.

Definition set_nextStartTime (t : T) (r : Refs T) : Refs T :=
  {| liveSessionRef := liveSessionRef r;
     inputAudioCtxRef := inputAudioCtxRef r;
     outputAudioCtxRef := outputAudioCtxRef r;
     nextStartTimeRef := t;
     audioSourcesRef := audioSourcesRef r;
     micStreamRef := micStreamRef r |}.

(** The [onmessage] callback up to its [await]; [now] is
    [ctx.currentTime].  When [decode] or [decodeAudioData] throws the
    handler ends there. *)
Definition onmessage (message : LiveServerMessage) (now : T) (s : State T)
  : State T :=
  match message_audio message, outputAudioCtxRef (refs s) with
  | Ok (Some base64Audio), Some ctx =>
      if truthy_str base64Audio then
        let r := set_nextStartTime (tmax (nextStartTimeRef (refs s)) now) (refs s) in
        let b := browser s in
        match rbind (Base64.decode base64Audio)
                (fun bytes => decodeAudioData bytes 24000 1) with
        | Ok audioBuffer =>
            {| ui := ui s; refs := r;
               browser :=
                 {| fresh := S (fresh b);
                    flows := flows b;
                    decoding :=
                      <[fresh b := {| dec_ctx := ctx; dec_buffer := audioBuffer;
                                      dec_clock := now |}]> (decoding b);
                    open_sessions := open_sessions b;
                    closed_sessions := closed_sessions b;
                    stopped_streams := stopped_streams b;
                    closed_ctxs := closed_ctxs b;
                    stopped_sources := stopped_sources b;
                    schedule := schedule b |} |}
        | Throw _ => {| ui := ui s; refs := r; browser := b |}
        end
      else s
  | _, _ => s
  end.

(** The [onmessage] callback after its [await]. *)
Definition onmessage_resume (k : nat) (d : Decoding T) (s : State T) : State T :=
  let r := refs s in
  let b := browser s in
  let source := fresh b in
  {| ui := ui s;
     refs := {| liveSessionRef := liveSessionRef r;
                inputAudioCtxRef := inputAudioCtxRef r;
                outputAudioCtxRef := outputAudioCtxRef r;
                (* nextStartTimeRef.current += audioBuffer.duration *)
                nextStartTimeRef :=
                  tadd (nextStartTimeRef r) (duration (dec_buffer d));
                (* audioSourcesRef.current.add(source) *)
                audioSourcesRef := audioSourcesRef r ∪ {[ source ]};
                micStreamRef := micStreamRef r |};
     browser :=
       {| fresh := S (fresh b);
          flows := flows b;
          decoding := delete k (decoding b);
          open_sessions := open_sessions b;
          closed_sessions := closed_sessions b;
          stopped_streams := stopped_streams b;
          closed_ctxs := closed_ctxs b;
          stopped_sources := stopped_sources b;
          (* source.start(nextStartTimeRef.current) *)
          schedule :=
            schedule b ++
              [{| chunk_source := source; chunk_ctx := dec_ctx d;
                  chunk_start := nextStartTimeRef r;
                  chunk_duration := duration (dec_buffer d);
                  chunk_clock := dec_clock d |}] |} |}.

Inductive Event : Type :=
| InvokeVoiceConsult                    (* handleVoiceConsult() *)
| MicGranted (f : nat)
| MicDenied (f : nat)
| SessionOpened (f : nat)
| ConnectFailed (f : nat)
| ChannelDown (session : nat)           (* onerror / onclose *)
| ClickTerminate                        (* the overlay's button *)
| Message (m : LiveServerMessage) (now : T)
| Decoded (k : nat).

(** One atomic step.  A continuation runs only if its flow is
    suspended at that point; the overlay exists only while
    [isVoiceConsultOpen]. *)
Definition step (s : State T) (e : Event) : State T :=
  match e with
  | InvokeVoiceConsult => handleVoiceConsult s
  | MicGranted f =>
      match flows (browser s) !! f with
      | Some AwaitingMic => mic_granted f s
      | _ => s
      end
  | MicDenied f =>
      match flows (browser s) !! f with
      | Some AwaitingMic => connect_failed f s
      | _ => s
      end
  | SessionOpened f =>
      match flows (browser s) !! f with
      | Some (AwaitingSession _ _ _ session) => session_opened f session s
      | _ => s
      end
  | ConnectFailed f =>
      match flows (browser s) !! f with
      | Some (AwaitingSession _ _ _ _) => connect_failed f s
      | _ => s
      end
  | ChannelDown session =>
      if bool_decide (session ∈ open_sessions (browser s)
                      ∨ session ∈ closed_sessions (browser s))
      then channel_down session s else s
  | ClickTerminate =>
      if isVoiceConsultOpen (ui s) then stopVoiceSession s else s
  | Message m now => onmessage m now s
  | Decoded k =>
      match decoding (browser s) !! k with
      | Some d => onmessage_resume k d s
      | None => s
      end
  end.

Definition run (s : State T) (es : list Event) : State T :=
  fold_left step es s.

End Machine.

(** The rationals as a time line. *)
Definition Qmax (a b : Q) : Q := if Qle_bool a b then b else a.

End Voice.

(* ===================================================================== *)
(** ** Request shaper: consultation and text generators *)
(* ===================================================================== *)

Module Consult.
Import Gemini.

(** A chat message of the application: [role], [content] (undefined
    when the reply had no text) and the optional [sources]. *)
Record Message := {
  role : jsstring;
  content : option jsstring;
  sources : option (list jsstring)
}.

(** One entry of [contents]: [{ role, parts: [{ text }] }]. *)
Record Turn := { turn_role : jsstring; turn_text : option jsstring }.

Definition chat_service := list Turn -> result GenerateContentResponse.

Record Reply := { reply_text : option jsstring; reply_sources : list jsstring }.

(** [h.role === 'user' ? 'user' : 'model'] *)
Definition turn_of (h : Message) : Turn :=
  {| turn_role := if bool_decide (role h = js "user") then js "user" else js "model";
     turn_text := content h |}.

(** The [contents] built by [askArchitect]. *)
Definition askArchitect_contents (message : jsstring) (history : list Message)
  : list Turn :=
  map turn_of history
  ++ [{| turn_role := js "user"; turn_text := Some message |}].

(** [chunks?.map(chunk => chunk.web?.uri).filter(Boolean) || []] *)
Definition grounding_uris (response : GenerateContentResponse) : list jsstring :=
  let chunks :=
    match candidates response with
    | Some (c0 :: _) =>
        match groundingMetadata c0 with
        | Some gm => groundingChunks gm
        | None => None
        end
    | _ => None
    end in
  match chunks with
  | Some cs =>
      omap (fun chunk =>
              match web chunk with
              | Some w =>
                  match web_uri w with
                  | Some u => if truthy_str u then Some u else None
                  | None => None
                  end
              | None => None
              end) cs
  | None => []
  end.

(** [export const askArchitect = async (message, history) => ...]:
    the one request it issues and its outcome. *)
Definition askArchitect (ai : chat_service) (message : jsstring)
  (history : list Message) : list Turn * result Reply :=
  let contents := askArchitect_contents message history in
  (contents,
   let? response := ai contents in
   Ok {| reply_text := text response;
         reply_sources := grounding_uris response |}).

Definition text_request (t : list fragment) : request :=
  {| req_model := flash; req_inline := None; req_text := t;
     req_config := NoConfig |}.

(** [generate3DModelFile] *)
Definition generate3DModelFile (ai : service) (design : ArchitecturalDesign)
  : io jsstring :=
  let! response := generateContent ai
    (text_request [Lit (js "Generate raw .obj file for: ");
                   Interp (name design);
                   Lit (js ". v, vt, vn, f lines only.")]) in
  ret (or_str (text response) []).

(** [generateGLTFModelFile] *)
Definition generateGLTFModelFile (ai : service) (design : ArchitecturalDesign)
  : io jsstring :=
  let! response := generateContent ai
    (text_request [Lit (js "Generate GLTF 2.0 JSON for: ");
                   Interp (name design);
                   Lit (js ". Raw JSON only.")]) in
  ret (or_str (text response) (js "{}")).

(** [getTutorialContent]; the feature key is quoted in the prompt. *)
Definition getTutorialContent (ai : service) (featureKey : jsstring)
  : io jsstring :=
  let! response := generateContent ai
    (text_request [Lit (js "Explain how to use the " ++ [34]);
                   Lit featureKey;
                   Lit (34 :: js " feature. Output exactly ONE short, direct sentence under 12 words. No technical jargon.")]) in
  ret (or_str (text response) (js "Capture your site to begin.")).

End Consult.

(* ===================================================================== *)
(** ** Export, refinement and chat handlers of the application *)
(* ===================================================================== *)

Module Handlers.
Import Gemini Consult.

(** [s.replace(/\s+/g, '_')]: every maximal run of white space becomes
    one underscore. *)
Fixpoint replace_spaces (s : jsstring) : jsstring :=
  match s with
  | [] => []
  | c :: s' =>
      if is_regex_space c then
        match s' with
        | [] => [95]
        | d :: _ => if is_regex_space d then replace_spaces s'
                    else 95 :: replace_spaces s'
        end
      else c :: replace_spaces s'
  end.

(** [generatedDesign.name.replace(...)]: only a string has [replace]. *)
Definition name_for_file (name : json) : result jsstring :=
  match name with
  | JStr s => Ok (replace_spaces s)
  | _ => Throw TypeError
  end.

Record Download := {
  download_name : jsstring;
  download_content : jsstring;
  download_type : jsstring
}.

Record ExportState := {
  generatedDesign : option ArchitecturalDesign;
  isExporting : bool
}.

(** [handleExportOBJ] and [handleExportGLTF], run to their end: the
    requests issued, the file offered (none when the guard returns or
    the [try] block throws), and the flag left by [finally]. *)
Definition handleExport
  (generator : service -> ArchitecturalDesign -> io jsstring)
  (suffix type : jsstring) (ai : service) (s : ExportState)
  : list request * option Download * ExportState :=
  match generatedDesign s with
  | None => ([], None, s)
  | Some design =>
      if isExporting s then ([], None, s)
      else
        let (reqs, r) :=
          let! fileContent := generator ai design in
          let! base := lift (name_for_file (name design)) in
          ret {| download_name := base ++ suffix;
                 download_content := fileContent;
                 download_type := type |} in
        (reqs,
         match r with Ok d => Some d | Throw _ => None end,
         {| generatedDesign := generatedDesign s; isExporting := false |})
  end.

Definition handleExportOBJ : service -> ExportState -> _ :=
  handleExport generate3DModelFile (js "_model.obj") (js "text/plain").

Definition handleExportGLTF : service -> ExportState -> _ :=
  handleExport generateGLTFModelFile (js "_model.gltf") (js "application/json").

(** The [try] block of [handleRefineRealism] after its request is
    answered: [refined.candidates[0].content.parts.find(...)] without
    optional chaining, then the design with a new exterior.  [None] is
    no state change. *)
Definition refined_design (refined : GenerateContentResponse)
  (design : ArchitecturalDesign) : result (option ArchitecturalDesign) :=
  match candidates refined with
  | None => Throw TypeError                       (* undefined[0] *)
  | Some [] => Throw TypeError                    (* undefined.content *)
  | Some (c0 :: _) =>
      match Gemini.content c0 with
      | None => Throw TypeError                   (* undefined.parts *)
      | Some ct =>
          match parts ct with
          | None => Throw TypeError               (* undefined.find *)
          | Some ps =>
              match List.find (fun p => bool_decide (is_Some (inlineData p))) ps with
              | Some part =>
                  match inlineData part with
                  | Some blob =>
                      Ok (Some
                        {| name := name design;
                           description := description design;
                           floorPlanJson := floorPlanJson design;
                           costs := costs design;
                           id := id design;
                           siteAnalysis := siteAnalysis design;
                           preferences := preferences design;
                           createdAt := createdAt design;
                           versions := versions design;
                           visualizations :=
                             {| exterior := js "data:image/png;base64,"
                                            ++ show_opt (blob_data blob);
                                interior := interior (visualizations design);
                                plan := plan (visualizations design) |} |})
                  | None => Ok None
                  end
              | None => Ok None
              end
          end
      end
  end.

(** *** The chat panel *)

Record ChatState := {
  chatMessage : jsstring;
  chatHistory : list Message;
  asking : list (list Turn)        (* askArchitect calls in flight *)
}.

Definition chat_init : ChatState :=
  {| chatMessage := []; chatHistory := []; asking := [] |}.

(** [text.trim()] is empty: every code unit is white space. *)
Definition is_blank (t : jsstring) : bool := forallb is_regex_space t.

(** [handleSendMessage(text)] up to its [await]. *)
Definition handleSendMessage (t : jsstring) (s : ChatState) : ChatState :=
  if is_blank t then s
  else
    {| chatMessage := [];                              (* setChatMessage("") *)
       chatHistory :=
         chatHistory s
         ++ [{| role := js "user"; content := Some t; sources := None |}];
       (* askArchitect(msg, chatHistory): the history of this render *)
       asking := asking s ++ [askArchitect_contents t (chatHistory s)] |}.

(** [handleSendMessage] after its [await]; a rejection is swallowed. *)
Definition handleSendMessage_settled (k : nat) (r : result Reply) (s : ChatState)
  : ChatState :=
  {| chatMessage := chatMessage s;
     chatHistory :=
       match r with
       | Ok res =>
           chatHistory s
           ++ [{| role := js "model"; content := reply_text res;
                  sources := Some (reply_sources res) |}]
       | Throw _ => chatHistory s
       end;
     asking := delete k (asking s) |}.

Inductive ChatEvent : Type :=
| TypeText (t : jsstring)              (* onChange *)
| Send (t : jsstring)                  (* button, Enter key or FAQ chip *)
| Answered (k : nat) (ai : chat_service).

Definition chat_step (s : ChatState) (e : ChatEvent) : ChatState :=
  match e with
  | TypeText t =>
      {| chatMessage := t; chatHistory := chatHistory s; asking := asking s |}
  | Send t => handleSendMessage t s
  | Answered k ai =>
      match asking s !! k with
      | Some contents =>
          handleSendMessage_settled k
            (let? response := ai contents in
             Ok {| reply_text := text response;
                   reply_sources := grounding_uris response |}) s
      | None => s
      end
  end.

Definition chat_run (s : ChatState) (es : list ChatEvent) : ChatState :=
  fold_left chat_step es s.

(** *** The wizard's stepper ([DesignStepper]) *)

Inductive StepStatus := Completed | Current | Upcoming.

Record StepView := {
  step_label : jsstring;
  step_status : StepStatus;
  step_connector : bool       (* a connector line follows this step *)
}.

(** [steps.map((step, index) => ...)] *)
Definition DesignStepper (currentStep : N) (steps : list jsstring) : list StepView :=
  imap (fun index step =>
          {| step_label := step;
             step_status :=
               if N.of_nat index <? currentStep then Completed
               else if N.of_nat index =? currentStep then Current
               else Upcoming;
             step_connector := bool_decide (index < length steps - 1)%nat |})
    steps.

Definition steps : list jsstring :=
  [js "Site Discovery"; js "Design Identity"; js "Blueprint Synthesis"].

End Handlers.

(* ===================================================================== *)
(** ** PCM frames ([createBlob] and the sample loop of [decodeAudioData]) *)
(* ===================================================================== *)

Module Pcm.

(** An element of a [Float32Array]: a finite value is a rational; the
    product with 32768 is exact in double precision. *)
Inductive float : Type :=
| Finite (q : Q)
| NonFinite.                       (* NaN, +Infinity, -Infinity *)

(** [data[i] * 32768] *)
Definition scale (x : float) : float :=
  match x with
  | Finite q => Finite (q * 32768)
  | NonFinite => NonFinite
  end.

(** The integral part, rounding toward zero. *)
Definition truncate (q : Q) : Z := Z.quot (Qnum q) (Z.pos (Qden q)).

(** Storing a number into an [Int16Array] element: not finite gives 0;
    otherwise truncate, reduce modulo 2^16, and read as signed. *)
Definition ToInt16 (v : float) : Z :=
  match v with
  | NonFinite => 0%Z
  | Finite q =>
      let int16bit := (truncate q mod 65536)%Z in
      if (32768 <=? int16bit)%Z then (int16bit - 65536)%Z else int16bit
  end.

(** The two bytes of an [Int16Array] element, low byte first. *)
Definition int16_bytes (w : Z) : list Byte.byte :=
  let u := Z.to_N (w mod 65536)%Z in
  [Base64.to_uint8 (u mod 256); Base64.to_uint8 (u / 256)].

(** An [Int16Array] element read from two bytes, low byte first. *)
Definition int16_of_bytes (lo hi : Byte.byte) : Z :=
  let u := (Z.of_N (Byte.to_N lo) + 256 * Z.of_N (Byte.to_N hi))%Z in
  if (32768 <=? u)%Z then (u - 65536)%Z else u.

Record GenAIBlob := { data : jsstring; mimeType : jsstring }.

(** [function createBlob(data: Float32Array): GenAIBlob] *)
Definition createBlob (samples : list float) : result GenAIBlob :=
  let int16 := map (fun x => ToInt16 (scale x)) samples in
  let? encoded := Base64.encode (flat_map int16_bytes int16) in
  Ok {| data := encoded; mimeType := js "audio/pcm;rate=16000" |}.

(** [new Int16Array(data.buffer)] over a buffer of even length. *)
Fixpoint Int16Array_view (bytes : list Byte.byte) : list Z :=
  match bytes with
  | lo :: hi :: rest => int16_of_bytes lo hi :: Int16Array_view rest
  | _ => []
  end.

(** The samples [decodeAudioData] writes for one channel:
    [dataInt16[i] / 32768.0]. *)
Definition channelData (bytes : list Byte.byte) : result (list Q) :=
  let n := N.of_nat (length bytes) in
  if N.odd n then Throw RangeError
  else if n / 2 =? 0 then Throw NotSupportedError
  else Ok (map (fun w => (inject_Z w / 32768)%Q) (Int16Array_view bytes)).

End Pcm.

(* ===================================================================== *)
(** * The capture overlay and its parent
    (src/unnamed/part_002, lines 111-239)

    [CameraCapture] with the callbacks it invokes on its parent.  Beside
    the controls of the capture machine the component renders a close
    button in its header, always, and, in place of the video when
    [error] is set, the buttons Upload File and Cancel. *)
(* ===================================================================== *)

Module Overlay.
Import CameraCapture.

(** [onCapture(frame)], [onClose()], [onUpload()]. *)
Inductive Callback : Type :=
| OnCapture (frame : jsstring)
| OnClose
| OnUpload.

Inductive Event : Type :=
| Camera (e : CameraCapture.Event)  (* a timer or control of the capture machine *)
| ClickClose                        (* header button: onClose *)
| ClickUploadFile                   (* onClick: onClose(); onUpload() *)
| ClickCancel.                      (* onClick: onClose *)

(** One event, with the callbacks invoked, in order.  Upload File and
    Cancel are rendered only while [error] is set. *)
Definition step (s : State) (e : Event) : State * list Callback :=
  match e with
  | Camera e' =>
      let (s', out) := CameraCapture.step s e' in
      (s', match out with Some frame => [OnCapture frame] | None => [] end)
  | ClickClose => (s, [OnClose])
  | ClickUploadFile =>
      if no_error s then (s, []) else (s, [OnClose; OnUpload])
  | ClickCancel => if no_error s then (s, []) else (s, [OnClose])
  end.

Fixpoint run (s : State) (es : list Event) : State * list Callback :=
  match es with
  | [] => (s, [])
  | e :: es' =>
      let (s1, out) := step s e in
      let (s2, outs) := run s1 es' in
      (s2, out ++ outs)
  end.

End Overlay.

(* ===================================================================== *)
(** * Properties *)
(* ===================================================================== *)

(** ** Base64 round trip *)

Section Base64Facts.
Import Base64.

(** Induction over a list three elements at a time. *)
Lemma list_ind3 {A} (P : list A -> Prop) :
  P [] -> (forall a, P [a]) -> (forall a b, P [a; b]) ->
  (forall a b c r, P r -> P (a :: b :: c :: r)) ->
  forall l, P l.
Proof.
  intros H0 H1 H2 H3.
  fix IH 1.
  intros [|a [|b [|c r]]];
    [apply H0 | apply H1 | apply H2 | apply H3, IH].
Qed.

(** Case analysis on every test of a goal, with the tests turned into
    arithmetic facts. *)
Ltac split_tests :=
  repeat match goal with
  | |- context [if ?b then _ else _] => destruct b eqn:?
  end;
  repeat match goal with
  | H : (_ && _)%bool = true |- _ => apply andb_true_iff in H; destruct H
  | H : (_ && _)%bool = false |- _ => apply andb_false_iff in H; destruct H
  | H : (_ || _)%bool = true |- _ => apply orb_true_iff in H; destruct H
  | H : (_ || _)%bool = false |- _ => apply orb_false_iff in H; destruct H
  | H : (_ <=? _) = true |- _ => apply N.leb_le in H
  | H : (_ <=? _) = false |- _ => apply N.leb_gt in H
  | H : (_ <? _) = true |- _ => apply N.ltb_lt in H
  | H : (_ <? _) = false |- _ => apply N.ltb_ge in H
  | H : (_ =? _) = true |- _ => apply N.eqb_eq in H
  | H : (_ =? _) = false |- _ => apply N.eqb_neq in H
  end.

Lemma b64_index_char s : s < 64 -> b64_index (b64_char s) = Some s.
Proof.
  intros Hs. unfold b64_char. split_tests;
    unfold b64_index; split_tests; try (f_equal; lia); lia.
Qed.

Lemma b64_char_not_pad s : (b64_char s =? pad) = false.
Proof.
  apply N.eqb_neq. unfold b64_char, pad. split_tests; lia.
Qed.

Lemma b64_char_not_ws s : is_ascii_whitespace (b64_char s) = false.
Proof.
  unfold is_ascii_whitespace.
  repeat (apply orb_false_iff; split); apply N.eqb_neq;
    unfold b64_char; split_tests; lia.
Qed.

(** The encoding without its padding: what [atob] sees after it has
    removed the trailing '='. *)
Fixpoint btoa_nopad (l : list N) : jsstring :=
  match l with
  | [] => []
  | a :: l1 =>
      match l1 with
      | [] => [b64_char (a / 4); b64_char ((a mod 4) * 16)]
      | b :: l2 =>
          match l2 with
          | [] => [b64_char (a / 4); b64_char ((a mod 4) * 16 + b / 16);
                   b64_char ((b mod 16) * 4)]
          | c :: r =>
              b64_char (a / 4) :: b64_char ((a mod 4) * 16 + b / 16)
              :: b64_char ((b mod 16) * 4 + c / 64) :: b64_char (c mod 64)
              :: btoa_nopad r
          end
      end
  end.

Lemma btoa_groups_no_ws l :
  List.filter (fun c => negb (is_ascii_whitespace c)) (btoa_groups l)
  = btoa_groups l.
Proof.
  induction l as [|a|a b|a b c r IH] using list_ind3;
    cbn [btoa_groups List.filter]; rewrite ?b64_char_not_ws;
    change (is_ascii_whitespace pad) with false; cbn [negb];
    first [reflexivity | now rewrite IH].
Qed.

Lemma btoa_groups_length l : N.of_nat (length (btoa_groups l)) mod 4 = 0.
Proof.
  induction l as [|a|a b|a b c r IH] using list_ind3;
    cbn [btoa_groups length]; try reflexivity.
  rewrite !Nat2N.inj_succ. lia.
Qed.

Lemma btoa_nopad_length l : N.of_nat (length (btoa_nopad l)) mod 4 <> 1.
Proof.
  induction l as [|a|a b|a b c r IH] using list_ind3;
    cbn [btoa_nopad length]; try (cbv; discriminate).
  rewrite !Nat2N.inj_succ. lia.
Qed.

Lemma drop_trailing_pad_cons2 x y l :
  (y =? pad) = false ->
  drop_trailing_pad (x :: y :: l) = x :: drop_trailing_pad (y :: l).
Proof.
  intros Hy. destruct l as [|z l]; cbn [drop_trailing_pad]; now rewrite ?Hy.
Qed.

Lemma drop_trailing_pad_groups l :
  drop_trailing_pad (btoa_groups l) = btoa_nopad l.
Proof.
  induction l as [|a|a b|a b c r IH] using list_ind3;
    cbn [btoa_groups btoa_nopad].
  - reflexivity.
  - rewrite drop_trailing_pad_cons2 by apply b64_char_not_pad.
    cbn. now rewrite ?b64_char_not_pad.
  - rewrite !drop_trailing_pad_cons2 by apply b64_char_not_pad.
    cbn. now rewrite ?b64_char_not_pad.
  - rewrite !drop_trailing_pad_cons2 by apply b64_char_not_pad.
    rewrite <- IH.
    destruct r as [|a' [|b' [|c' r']]]; cbn [btoa_groups drop_trailing_pad];
      now rewrite ?b64_char_not_pad.
Qed.

Lemma sextets_nopad l :
  Forall (fun a => a < 256) l ->
  exists sl, sextets (btoa_nopad l) = Some sl /\ atob_groups sl = l.
Proof.
  induction l as [|a|a b|a b c r IH] using list_ind3; intros Hl;
    cbn [btoa_nopad sextets].
  - now exists [].
  - apply Forall_cons in Hl as [Ha _].
    rewrite !b64_index_char by lia.
    eexists; split; [reflexivity|]. cbn [atob_groups]. f_equal. lia.
  - apply Forall_cons in Hl as [Ha Hl]. apply Forall_cons in Hl as [Hb _].
    rewrite !b64_index_char by lia.
    eexists; split; [reflexivity|]. cbn [atob_groups]. repeat f_equal; lia.
  - apply Forall_cons in Hl as [Ha Hl]. apply Forall_cons in Hl as [Hb Hl].
    apply Forall_cons in Hl as [Hc Hl].
    destruct (IH Hl) as (sl & Hsl & Hdec).
    rewrite !b64_index_char by lia. rewrite Hsl.
    eexists; split; [reflexivity|]. cbn [atob_groups].
    rewrite Hdec. repeat f_equal; lia.
Qed.

(** [atob] undoes [btoa] on every binary string. *)
Lemma atob_btoa_groups l :
  Forall (fun a => a < 256) l -> atob (btoa_groups l) = Ok l.
Proof.
  intros Hl. unfold atob.
  rewrite btoa_groups_no_ws, btoa_groups_length. cbn [N.eqb].
  rewrite drop_trailing_pad_groups.
  destruct (N.eqb_spec (N.of_nat (length (btoa_nopad l)) mod 4) 1) as [E|_].
  - now apply btoa_nopad_length in E.
  - destruct (sextets_nopad l Hl) as (sl & -> & ->). reflexivity.
Qed.

Lemma fold_left_snoc {A B} (f : A -> B) (l : list A) (acc : list B) :
  fold_left (fun acc b => acc ++ [f b]) l acc = acc ++ map f l.
Proof.
  revert acc. induction l as [|x l IH]; intros acc; cbn.
  - now rewrite app_nil_r.
  - rewrite IH, <- app_assoc. reflexivity.
Qed.

Lemma to_uint8_fromCharCode b : to_uint8 (fromCharCode b) = b.
Proof.
  unfold to_uint8, fromCharCode.
  rewrite N.mod_small by (pose proof (Byte.to_N_bounded b); lia).
  now rewrite Byte.of_to_N.
Qed.

Example encode_two_bytes :
  encode [Byte.x48; Byte.x69] = Ok (js "SGk=").
Proof. reflexivity. Qed.

Example decode_skips_whitespace :
  decode (js "SG k=") = Ok [Byte.x48; Byte.x69].
Proof. reflexivity. Qed.

Example decode_rejects_lone_character :
  decode (js "S") = Throw InvalidCharacterError.
Proof. reflexivity. Qed.

Lemma encode_eq bytes :
  encode bytes = Ok (btoa_groups (map fromCharCode bytes)).
Proof.
  unfold encode, btoa. rewrite fold_left_snoc. cbn [app].
  replace (forallb _ _) with true; [reflexivity|].
  symmetry. apply forallb_forall. intros c Hc.
  apply in_map_iff in Hc as (b & <- & _).
  apply N.ltb_lt. pose proof (Byte.to_N_bounded b). unfold fromCharCode. lia.
Qed.

(** C10. For every byte array, [encode] succeeds and [decode] of its
    result returns the same byte array: the base64 PCM encoding and
    decoding of the voice session form an exact round trip. *)
Theorem decode_encode (bytes : list Byte.byte) :
  exists base64, encode bytes = Ok base64 /\ decode base64 = Ok bytes.
Proof.
  exists (btoa_groups (map fromCharCode bytes)). split; [apply encode_eq|].
  unfold decode. rewrite atob_btoa_groups.
  - cbn [rbind]. f_equal. rewrite map_map.
    rewrite <- (map_id bytes) at 2. apply map_ext, to_uint8_fromCharCode.
  - apply Forall_forall. intros c Hc.
    apply list_elem_of_In, in_map_iff in Hc as (b & <- & _).
    pose proof (Byte.to_N_bounded b). unfold fromCharCode. lia.
Qed.

End Base64Facts.

(** ** [parseBase64] *)

Section ParseBase64Facts.
Import Gemini.

Example parseBase64_data_uri :
  parseBase64 (js "data:image/png;base64,iVBO Rw0K")
  = {| mimeType := js "image/png"; data := js "iVBORw0K" |}.
Proof. reflexivity. Qed.

Example parseBase64_raw :
  parseBase64 (js "QUJD") = {| mimeType := js "image/jpeg"; data := js "QUJD" |}.
Proof. reflexivity. Qed.

Example parseBase64_header_without_payload :
  parseBase64 (js "data:image/png;base64,")
  = {| mimeType := js "image/png"; data := [] |}.
Proof. reflexivity. Qed.

Lemma match_header_nonempty s h : match_header s = Some h -> h <> [].
Proof.
  induction s as [|c s IH]; cbn [match_header].
  - destruct (strip_prefix (js "data:") []) as [rest|] eqn:E; [|discriminate].
    destruct (fst (span _ rest)) eqn:G; [discriminate|].
    intros [= <-]. discriminate.
  - destruct (strip_prefix (js "data:") (c :: s)) as [rest|] eqn:E; [|exact IH].
    destruct (fst (span _ rest)) eqn:G; [exact IH|].
    intros [= <-]. discriminate.
Qed.

Lemma split_comma_snd_Forall (P : N -> Prop) s :
  Forall P s -> Forall P (snd (split_comma s)).
Proof.
  induction 1 as [|c s Hc Hs IH]; cbn [split_comma]; [constructor|].
  destruct (c =? 44); [exact Hs|].
  destruct (split_comma s). exact IH.
Qed.

Lemma strip_whitespace_clean s :
  Forall (fun c => is_regex_space c = false) (strip_whitespace s).
Proof.
  apply Forall_forall. intros c Hc.
  apply list_elem_of_In, filter_In in Hc as [_ Hc].
  now apply negb_true_iff.
Qed.

(** C7, as stated, fails: the empty input has no data-URI header and
    its payload is empty. *)
Lemma parseBase64_empty_payload :
  ~ (forall s, match_data_uri (strip_whitespace s) = None ->
       mimeType (parseBase64 s) <> [] /\ data (parseBase64 s) <> []).
Proof.
  intros Hall. destruct (Hall (js "") eq_refl) as [_ Hdata].
  now apply Hdata.
Qed.

(** C7, amended.  For every input whose whitespace-stripped form does
    not match the data-URI pattern, [parseBase64] returns a non-empty
    MIME type and a payload free of whitespace; without a comma the MIME
    type is image/jpeg and the payload is the whole stripped input (so it
    is non-empty exactly when that is); with a comma the payload is the
    text after the first comma, and the MIME type is image/jpeg unless
    the text before it carries a data: header. *)
Theorem parseBase64_fallback (s : jsstring) :
  match_data_uri (strip_whitespace s) = None ->
  mimeType (parseBase64 s) <> []
  /\ Forall (fun c => is_regex_space c = false) (data (parseBase64 s))
  /\ (includes_comma (strip_whitespace s) = false ->
      mimeType (parseBase64 s) = js "image/jpeg"
      /\ data (parseBase64 s) = strip_whitespace s)
  /\ (includes_comma (strip_whitespace s) = true ->
      data (parseBase64 s) = snd (split_comma (strip_whitespace s))
      /\ (match_header (fst (split_comma (strip_whitespace s))) = None ->
          mimeType (parseBase64 s) = js "image/jpeg")).
Proof.
  intros Hno. unfold parseBase64. rewrite Hno.
  pose proof (strip_whitespace_clean s) as Hclean.
  destruct (includes_comma (strip_whitespace s)) eqn:Hc.
  - pose proof (split_comma_snd_Forall _ _ Hclean) as Hsnd.
    destruct (split_comma (strip_whitespace s)) as [part0 rest] eqn:Hsplit.
    cbn [mimeType data fst snd] in *.
    repeat split; try discriminate; try assumption.
    + destruct (match_header part0) as [h|] eqn:Hh; [|discriminate].
      now apply match_header_nonempty in Hh.
    + intros ->. reflexivity.
  - cbn [mimeType data]. repeat split; try discriminate; assumption.
Qed.

Lemma parseBase64_fallback_witness :
  match_data_uri (strip_whitespace (js "QUJD RUY=")) = None
  /\ data (parseBase64 (js "QUJD RUY=")) = js "QUJDRUY="
  /\ mimeType (parseBase64 (js "QUJD RUY=")) = js "image/jpeg".
Proof.
  pose proof (parseBase64_fallback (js "QUJD RUY=") eq_refl) as (_ & _ & Hplain & _).
  destruct (Hplain eq_refl) as [Hm Hd].
  split; [reflexivity|]. split; [exact Hd | exact Hm].
Defined.

End ParseBase64Facts.

(** ** Request shaper *)

Section GeminiFacts.
Import Gemini.

Example JSON_parse_object :
  JSON_parse (json_text " {'a': [1, true, null], 'a': 'x'} ")
  = Ok (JObj [(js "a", JStr (js "x"))]).
Proof. reflexivity. Qed.

Example JSON_parse_null : JSON_parse (js "null") = Ok JNull.
Proof. reflexivity. Qed.

Example JSON_parse_trailing_comma : JSON_parse (js "[1,]") = Throw SyntaxError.
Proof. reflexivity. Qed.

Example JSON_parse_empty : JSON_parse [] = Throw SyntaxError.
Proof. reflexivity. Qed.

Example extractImage_first_inline :
  extractImage (Some (image_response "AAAA"))
  = Ok (Some (js "data:image/png;base64,AAAA")).
Proof. reflexivity. Qed.

Example extractImage_no_candidate :
  extractImage (Some (text_response (js "{}"))) = Ok None.
Proof. reflexivity. Qed.

Lemma finalizedDesignData_ok v :
  v <> JNull ->
  finalizedDesignData v
  = Ok {| fin_name := or_default (own v (js "name")) default_name;
          fin_description :=
            or_default (own v (js "description")) default_description;
          fin_floorPlanJson :=
            or_default (own v (js "floorPlanJson")) default_floorPlanJson;
          fin_costs := or_default (own v (js "costs")) default_costs |}.
Proof.
  intros Hv. unfold finalizedDesignData, get_prop, own.
  destruct v; try reflexivity. contradiction.
Qed.

Lemma finalizedDesignData_null : finalizedDesignData JNull = Throw TypeError.
Proof. reflexivity. Qed.

Lemma extractImage_response r : exists o, extractImage (Some r) = Ok o.
Proof.
  unfold extractImage.
  destruct (candidates r) as [[|c0 cs]|]; eauto.
  destruct (content c0) as [ct|]; eauto.
  destruct (parts ct) as [ps|]; eauto.
  destruct (List.find _ ps) as [part|]; eauto.
  destruct (inlineData part); eauto.
Qed.

Lemma extractImage_null : extractImage None = Throw TypeError.
Proof. reflexivity. Qed.

(** The sibling that does check: with an empty payload [analyzeSite]
    throws before any request. *)
Lemma analyzeSite_invalid ai img :
  data (parseBase64 img) = [] ->
  analyzeSite ai img = ([], Throw (Error "Invalid image data")).
Proof. intros Hd. unfold analyzeSite. now rewrite Hd. Qed.

(** With a payload, [analyzeSite] issues exactly one request. *)
Lemma analyzeSite_one_request ai img :
  data (parseBase64 img) <> [] ->
  exists req, fst (analyzeSite ai img) = [req]
              /\ req_inline req = Some (data (parseBase64 img), mimeType (parseBase64 img)).
Proof.
  intros Hd. unfold analyzeSite.
  destruct (data (parseBase64 img)) as [|c r] eqn:E; [contradiction|].
  cbn [truthy_str negb]. unfold generateContent, bind.
  destruct (ai _); eexists; split; try reflexivity;
    cbn [fst ret app]; reflexivity.
Qed.

(** [promptEditImage] always issues its request, whatever the payload. *)
Lemma promptEditImage_one_request ai img prompt :
  exists req,
    fst (promptEditImage ai img prompt) = [req]
    /\ req_inline req = Some (data (parseBase64 img), mimeType (parseBase64 img)).
Proof.
  unfold promptEditImage, generateContent, bind.
  destruct (ai _) as [resp|e].
  - destruct (extractImage_response resp) as [o ->].
    eexists. split; reflexivity.
  - eexists. split; reflexivity.
Qed.

(** Once the concept request has produced a value other than [null], a
    rejected image request makes the whole synthesis reject. *)
Lemma generateDesignConcept_image_rejected ai env img prefs disc resp :
  ai (concept_request prefs disc) = Ok resp ->
  parse_designData resp <> JNull ->
  (forall req, is_image_request req = true -> exists e, ai req = Throw e) ->
  snd (generateDesignConcept ai env img prefs disc) = Throw TypeError.
Proof.
  intros Hc Hv Himg. unfold generateDesignConcept, generateContent.
  unfold bind at 1. rewrite Hc.
  rewrite (finalizedDesignData_ok _ Hv). unfold lift, bind at 1.
  set (fin := {| fin_name := _ |}).
  destruct (Himg (exterior_request (parseBase64 img) (fin_name fin) prefs) eq_refl)
    as [e1 He1].
  unfold promise_all2, bind, catch, ret. cbn [fst snd]. rewrite He1.
  cbn. reflexivity.
Qed.

(** The fixed defaults have the expected shape. *)
Lemma defaults_well_formed d :
  name d = default_name -> description d = default_description ->
  floorPlanJson d = default_floorPlanJson -> costs d = default_costs ->
  well_formed d = true.
Proof.
  intros Hn Hd Hf Hc. unfold well_formed. now rewrite Hn, Hd, Hf, Hc.
Qed.

(** A response that follows the declared schema (all four required
    fields present) with an empty floor plan and empty costs. *)
Definition bare_concept : jsstring :=
  json_text "{'name':'Dune House','description':'Low villa behind the dune.','floorPlanJson':{},'costs':{}}".

(** C1, as stated, fails: the service answers every request, the text
    is valid JSON with the four required fields, and the design returned
    has neither a rooms array nor a totalArea, neither an estimatedTotal
    nor a breakdown. *)
Lemma generateDesignConcept_passes_through :
  exists d,
    snd (generateDesignConcept (service_answering bare_concept) sample_env
           (js "QUJD") sample_preferences sample_discovery) = Ok d
    /\ floorPlanJson d = JObj [] /\ costs d = JObj []
    /\ well_formed d = false.
Proof.
  eexists. split; [vm_compute; reflexivity|].
  repeat split.
Qed.

(** C1, amended.  When the concept request is answered with a text that
    is missing, empty, not JSON, or JSON for anything but [null], and
    the image requests are answered, [generateDesignConcept] returns a
    design whose name, description, floorPlanJson and costs are each the
    parsed object's own property of that name when it is truthy and the
    fixed default otherwise; text that does not parse counts as the empty
    object.  The defaults have the expected shape, so a response without
    any of the four properties, and in particular an unparseable one,
    yields a well-formed design; a property that is present is returned
    as it is. *)
Theorem generateDesignConcept_defaults
  (ai : service) (env : Env) (img : jsstring) (prefs : DesignPreferences)
  (disc : SiteDiscovery) (resp : GenerateContentResponse) :
  ai (concept_request prefs disc) = Ok resp ->
  (forall req, is_image_request req = true -> exists r, ai req = Ok r) ->
  parse_designData resp <> JNull ->
  exists d,
    snd (generateDesignConcept ai env img prefs disc) = Ok d
    /\ name d = or_default (own (parse_designData resp) (js "name")) default_name
    /\ description d
       = or_default (own (parse_designData resp) (js "description"))
           default_description
    /\ floorPlanJson d
       = or_default (own (parse_designData resp) (js "floorPlanJson"))
           default_floorPlanJson
    /\ costs d
       = or_default (own (parse_designData resp) (js "costs")) default_costs
    /\ ((forall k, own (parse_designData resp) k = None) -> well_formed d = true)
    /\ (forall e, JSON_parse (or_str (text resp) (js "{}")) = Throw e ->
        well_formed d = true).
Proof.
  intros Hc Himg Hv.
  assert (Hrun : exists d,
    snd (generateDesignConcept ai env img prefs disc) = Ok d
    /\ name d = or_default (own (parse_designData resp) (js "name")) default_name
    /\ description d
       = or_default (own (parse_designData resp) (js "description"))
           default_description
    /\ floorPlanJson d
       = or_default (own (parse_designData resp) (js "floorPlanJson"))
           default_floorPlanJson
    /\ costs d
       = or_default (own (parse_designData resp) (js "costs")) default_costs).
  { unfold generateDesignConcept, generateContent.
    unfold bind at 1. rewrite Hc.
    rewrite (finalizedDesignData_ok _ Hv). unfold lift, bind at 1.
    set (fin := {| fin_name := _ |}).
    destruct (Himg (exterior_request (parseBase64 img) (fin_name fin) prefs) eq_refl)
      as [r1 Hr1].
    destruct (Himg (plan_request (parseBase64 img) (fin_name fin)) eq_refl)
      as [r2 Hr2].
    destruct (extractImage_response r1) as [o1 Ho1].
    destruct (extractImage_response r2) as [o2 Ho2].
    unfold promise_all2, bind, catch, ret. cbn [fst snd]. rewrite Hr1, Hr2.
    cbn [fst snd app]. rewrite Ho1. cbn [fst snd app]. rewrite Ho2.
    cbn [fst snd app]. eexists. split; [reflexivity|].
    cbn [name description floorPlanJson costs]. subst fin.
    cbn [fin_name fin_description fin_floorPlanJson fin_costs].
    repeat split. }
  destruct Hrun as (d & Hd & Hn & Hde & Hf & Hco).
  exists d. repeat (split; [assumption|]).
  assert (Hnone : (forall k, own (parse_designData resp) k = None) ->
                  well_formed d = true).
  { intros Hk. rewrite !Hk in *. now apply defaults_well_formed. }
  split; [exact Hnone|].
  intros e He. apply Hnone. intros k. unfold parse_designData. now rewrite He.
Qed.

Lemma generateDesignConcept_defaults_witness :
  exists d,
    snd (generateDesignConcept (service_answering (js "not json at all"))
           sample_env (js "QUJD") sample_preferences sample_discovery) = Ok d
    /\ well_formed d = true.
Proof.
  destruct (generateDesignConcept_defaults
              (service_answering (js "not json at all")) sample_env (js "QUJD")
              sample_preferences sample_discovery
              (text_response (js "not json at all")))
    as (d & Hd & _ & _ & _ & _ & _ & Hthrow).
  - reflexivity.
  - intros req Hreq. unfold service_answering. rewrite Hreq. eauto.
  - vm_compute. discriminate.
  - exists d. split; [exact Hd|]. apply (Hthrow SyntaxError).
    vm_compute. reflexivity.
Defined.

(** C2: the concept request is answered and both image requests are
    rejected.  [Promise.all(...).catch] yields [[null, null]],
    [extractImage(null)] reads a property of [null], and the synthesis
    rejects with a TypeError instead of returning the placeholders.  All
    three requests have been issued. *)
Theorem generateDesignConcept_images_rejected :
  snd (generateDesignConcept (service_without_images (js "{}")) sample_env
         (js "QUJD") sample_preferences sample_discovery) = Throw TypeError
  /\ length (fst (generateDesignConcept (service_without_images (js "{}"))
                    sample_env (js "QUJD") sample_preferences sample_discovery))
     = 3%nat.
Proof. split; vm_compute; reflexivity. Qed.

(** C3: with an empty image [analyzeSite] throws before any request,
    while [promptEditImage] and [generateDesignConcept] send the empty
    payload to the service. *)
Theorem empty_image_reaches_service :
  data (parseBase64 (js "")) = []
  /\ analyzeSite (service_answering (js "{}")) (js "")
     = ([], Throw (Error "Invalid image data"))
  /\ (exists req,
        fst (promptEditImage (service_answering (js "{}")) (js "") (js "glass tower"))
        = [req]
        /\ req_inline req = Some ([], js "image/jpeg"))
  /\ (exists concept ext pln,
        fst (generateDesignConcept (service_answering (js "{}")) sample_env (js "")
               sample_preferences sample_discovery) = [concept; ext; pln]
        /\ req_inline ext = Some ([], js "image/jpeg")
        /\ req_inline pln = Some ([], js "image/jpeg")).
Proof.
  split; [reflexivity|]. split; [reflexivity|]. split.
  - eexists. split; [vm_compute; reflexivity | reflexivity].
  - do 3 eexists. split; [vm_compute; reflexivity | split; reflexivity].
Qed.

End GeminiFacts.

(** ** Capture flow *)

Section CaptureFacts.
Import CameraCapture.

(** The phase is ready only after the readiness value has reached 100. *)
Definition gate_inv (s : State) : Prop :=
  phase s = ready -> 100 <= syncProgress s.

Lemma tick_ge_100 v r : 100 <= v -> 100 <= tick v r.
Proof. intros Hv. unfold tick. destruct (N.leb_spec 100 v); lia. Qed.

Lemma step_gate_inv s e : gate_inv s -> gate_inv (fst (step s e)).
Proof.
  unfold gate_inv. intros Hs.
  destruct e; cbn [step];
    repeat match goal with
    | |- context [if ?b then _ else _] => destruct b eqn:?
    end; cbn [fst phase syncProgress set_phase]; auto; try discriminate.
  - intros Hp. apply tick_ge_100. auto.
  - intros _. unfold set_point_enabled in *.
    apply andb_true_iff in Heqb as [_ Hp].
    apply negb_true_iff, N.ltb_ge in Hp. exact Hp.
Qed.

Lemma run_gate_inv es : forall s, gate_inv s -> gate_inv (fst (run s es)).
Proof.
  induction es as [|e es IH]; intros s Hs; cbn [run]; [exact Hs|].
  pose proof (step_gate_inv s e Hs) as H1.
  destruct (step s e) as [s1 out]. cbn [fst] in H1.
  specialize (IH s1 H1). destruct (run s1 es) as [s2 outs]. exact IH.
Qed.

Lemma capture_control_ready s : capture_control s = true -> phase s = ready.
Proof.
  unfold capture_control, is_aligning. destruct (phase s); [|reflexivity].
  rewrite andb_false_r. discriminate.
Qed.

(** C8.  In every state the capture flow can reach: while the phase is
    aligning there is no capture control; the control that leads from
    aligning to ready is enabled only when the readiness value is at
    least 100; whenever the capture control exists, and whenever a click
    on it hands a frame to [onCapture], the readiness value is at least
    100; and no event other than that enabled control leaves the
    aligning phase. *)
Theorem capture_gate (es : list Event) :
  (is_aligning (fst (run init es)) = true ->
   capture_control (fst (run init es)) = false)
  /\ (set_point_enabled (fst (run init es)) = true ->
      100 <= syncProgress (fst (run init es)))
  /\ (capture_control (fst (run init es)) = true ->
      100 <= syncProgress (fst (run init es)))
  /\ (forall frame out,
        snd (step (fst (run init es)) (ClickCapture frame)) = Some out ->
        100 <= syncProgress (fst (run init es)))
  /\ (forall e,
        phase (fst (run init es)) = aligning ->
        phase (fst (step (fst (run init es)) e)) = ready ->
        e = ClickSetPoint /\ 100 <= syncProgress (fst (run init es))).
Proof.
  assert (Hinv : gate_inv (fst (run init es))).
  { apply run_gate_inv. intros Hp. discriminate. }
  set (s := fst (run init es)) in *.
  assert (Hcap : capture_control s = true -> 100 <= syncProgress s).
  { intros Hc. apply Hinv, capture_control_ready, Hc. }
  assert (Hset : set_point_enabled s = true -> 100 <= syncProgress s).
  { unfold set_point_enabled. intros Hc.
    apply andb_true_iff in Hc as [_ Hc].
    now apply negb_true_iff, N.ltb_ge in Hc. }
  repeat split.
  - unfold capture_control. intros ->. apply andb_false_r.
  - exact Hset.
  - exact Hcap.
  - intros frame out. cbn [step].
    destruct (capture_control s) eqn:Hc; [auto | discriminate].
  - destruct e; cbn [step] in *;
      repeat match goal with
      | H : context [if ?b then _ else _] |- _ => destruct b eqn:?
      end; cbn [fst phase set_phase] in *; congruence.
  - destruct e; cbn [step] in *;
      repeat match goal with
      | H : context [if ?b then _ else _] |- _ => destruct b eqn:?
      end; cbn [fst phase set_phase] in *; try congruence.
    now apply Hset.
Qed.

(** C9, as stated, fails: eight ticks lead from 0 to 107, which has
    reached 100, and the next tick changes it, to the smaller value
    100. *)
Lemma readiness_overshoots :
  ~ (forall es r,
       (syncProgress (fst (run init es)) < 100 ->
        syncProgress (fst (run init es))
        <= tick (syncProgress (fst (run init es))) r)
       /\ (100 <= syncProgress (fst (run init es)) ->
           tick (syncProgress (fst (run init es))) r
           = syncProgress (fst (run init es)))).
Proof.
  intros Hall.
  destruct (Hall [Tick 14; Tick 14; Tick 14; Tick 14; Tick 14; Tick 14;
                  Tick 14; Tick 9] 0) as [_ Hfix].
  change (syncProgress _) with 107 in Hfix.
  assert (H107 : 100 <= 107) by lia.
  specialize (Hfix H107). vm_compute in Hfix. discriminate.
Qed.

Lemma run_progress_bound es :
  forall s, syncProgress s <= 113 -> syncProgress (fst (run s es)) <= 113.
Proof.
  induction es as [|e es IH]; intros s Hs; cbn [run]; [exact Hs|].
  assert (H1 : syncProgress (fst (step s e)) <= 113).
  { destruct e; cbn [step];
      repeat match goal with
      | |- context [if ?b then _ else _] => destruct b eqn:?
      end; cbn [fst syncProgress set_phase]; try exact Hs.
    apply andb_true_iff in Heqb as [_ Hr]. apply N.ltb_lt in Hr.
    unfold tick. destruct (N.leb_spec 100 (syncProgress s)); lia. }
  destruct (step s e) as [s1 out]. cbn [fst] in H1.
  specialize (IH s1 H1). destruct (run s1 es). exact IH.
Qed.

(** C9, amended.  The readiness value of a reachable state is at most
    113.  A tick never decreases a value below 100 (it may carry it
    past 100); from any value of at least 100, the next tick sets it to
    exactly 100, and there it stays. *)
Theorem readiness_ticks (es : list Event) (r : N) :
  syncProgress (fst (run init es)) <= 113
  /\ (syncProgress (fst (run init es)) < 100 ->
      syncProgress (fst (run init es))
      <= tick (syncProgress (fst (run init es))) r)
  /\ (100 <= syncProgress (fst (run init es)) ->
      tick (syncProgress (fst (run init es))) r = 100)
  /\ tick 100 r = 100.
Proof.
  split; [apply run_progress_bound; cbn; lia|].
  unfold tick. repeat split.
  - intros Hlt. destruct (N.leb_spec 100 (syncProgress (fst (run init es)))); lia.
  - intros Hge. destruct (N.leb_spec 100 (syncProgress (fst (run init es)))); lia.
Qed.

End CaptureFacts.

(** ** Pipeline orchestrator *)

Section AppFacts.
Import Gemini App.

(** Every synthesis call of a trace carries the discovery obtained most
    recently before it; [acc] is the one obtained before the trace. *)
Fixpoint calls_follow (acc : option SiteDiscovery) (tr : list Obs) : Prop :=
  match tr with
  | [] => True
  | Issued (CallGenerateDesignConcept _ _ d) :: tr' =>
      acc = Some d /\ calls_follow acc tr'
  | Discovered d :: tr' => calls_follow (Some d) tr'
  | _ :: tr' => calls_follow acc tr'
  end.

Lemma last_discovery_app a b acc :
  last_discovery (a ++ b) acc = last_discovery b (last_discovery a acc).
Proof.
  revert acc. induction a as [|o a IH]; intros acc; [reflexivity|].
  destruct o; cbn [app last_discovery]; apply IH.
Qed.

Lemma calls_follow_app a b acc :
  calls_follow acc a -> calls_follow (last_discovery a acc) b ->
  calls_follow acc (a ++ b).
Proof.
  revert acc. induction a as [|o a IH]; intros acc Ha Hb; [exact Hb|].
  destruct o as [[img|img p d]| | | | |]; cbn [app calls_follow last_discovery] in *;
    try (apply IH; assumption).
  destruct Ha as [-> Ha]. split; [reflexivity|]. apply IH; assumption.
Qed.

Lemma calls_follow_split tr : forall acc pre img p d post,
  calls_follow acc tr ->
  tr = pre ++ Issued (CallGenerateDesignConcept img p d) :: post ->
  last_discovery pre acc = Some d.
Proof.
  induction tr as [|o tr IH]; intros acc pre img p d post Hf Heq.
  - destruct pre; discriminate.
  - destruct pre as [|o' pre]; cbn [app] in Heq.
    + injection Heq as -> ->. cbn [calls_follow last_discovery] in *.
      destruct Hf as [-> _]. reflexivity.
    + injection Heq as <- ->.
      destruct o as [[img'|img' p' d']| | | | |];
        cbn [calls_follow last_discovery] in *;
        try (eapply IH; [eassumption | reflexivity]).
      destruct Hf as [_ Hf]. eapply IH; [eassumption | reflexivity].
Qed.

(** Step 2 is shown only with a stored discovery and a non-empty
    image. *)
Definition synthesis_inv (s : State) : Prop :=
  step s = 2 ->
  is_Some (siteDiscovery s)
  /\ exists img, uploadedImage s = Some img /\ img <> [].

Lemma startSynthesis_guard s :
  (is_Some (siteDiscovery s)
   /\ exists img, uploadedImage s = Some img /\ img <> [])
  \/ startSynthesis s = (s, None).
Proof.
  unfold startSynthesis.
  destruct (uploadedImage s) as [[|c img]|]; destruct (siteDiscovery s);
    cbn [truthy_str]; auto.
  left. split; [eauto|]. eexists. split; [reflexivity | discriminate].
Qed.

Lemma sys_step_facts y e :
  synthesis_inv (app y) ->
  synthesis_inv (app (fst (sys_step y e)))
  /\ siteDiscovery (app (fst (sys_step y e)))
     = last_discovery (snd (sys_step y e)) (siteDiscovery (app y))
  /\ calls_follow (siteDiscovery (app y)) (snd (sys_step y e)).
Proof.
  unfold synthesis_inv.
  intros Hinv. destruct e as [img| |k ai env|v|p|i]; cbn [sys_step].
  - cbn. split; [intros Hstep; discriminate|]. split; [reflexivity | exact I].
  - destruct (startSynthesis_guard (app y)) as [[Hd Himg]|Hg].
    + unfold startSynthesis.
      destruct Himg as (img & Hu & Hne). rewrite Hu.
      destruct Hd as [d Hd]. rewrite Hd.
      destruct img as [|c img]; [contradiction|]. cbn.
      split; [|split; [reflexivity | split; [reflexivity | exact I]]].
      intros _. split; [eauto|]. eexists.
      split; [reflexivity | exact Hne].
    + rewrite Hg. cbn. split; [exact Hinv|]. split; [reflexivity | exact I].
  - destruct (pending y !! k) as [[img|img p d]|].
    + destruct (analyzeSite ai img) as [reqs [d|err]]; cbn.
      * split; [intros Hstep; discriminate|]. split; [reflexivity | exact I].
      * split; [exact Hinv|]. split; [reflexivity | exact I].
    + destruct (generateDesignConcept ai env img p d) as [reqs [dsg|err]]; cbn;
        (split; [exact Hinv|]; split; [reflexivity | exact I]).
    + cbn. split; [exact Hinv|]. split; [reflexivity | exact I].
  - cbn. split; [exact Hinv|]. split; [reflexivity | exact I].
  - cbn. split; [exact Hinv|]. split; [reflexivity | exact I].
  - destruct (projects (app y) !! i); cbn;
      (split; [exact Hinv|]; split; [reflexivity | exact I]).
Qed.

Lemma sys_run_facts es : forall y,
  synthesis_inv (app y) ->
  synthesis_inv (app (fst (sys_run y es)))
  /\ siteDiscovery (app (fst (sys_run y es)))
     = last_discovery (snd (sys_run y es)) (siteDiscovery (app y))
  /\ calls_follow (siteDiscovery (app y)) (snd (sys_run y es)).
Proof.
  induction es as [|e es IH]; intros y Hinv; cbn [sys_run].
  - cbn. auto.
  - destruct (sys_step_facts y e Hinv) as (H1 & H2 & H3).
    destruct (sys_step y e) as [y1 o1]. cbn [fst snd] in *.
    destruct (IH y1 H1) as (H4 & H5 & H6).
    destruct (sys_run y1 es) as [y2 o2]. cbn [fst snd] in *.
    split; [exact H4|]. split.
    + rewrite last_discovery_app, <- H2. exact H5.
    + apply calls_follow_app; [exact H3|]. rewrite <- H2. exact H6.
Qed.

(** C4.  After any sequence of events: if the wizard is at step 2 then
    a discovery is stored (and the image is present); the stored
    discovery is the result of the latest fulfilled [analyzeSite]; every
    call of [generateDesignConcept] was issued with exactly that
    discovery; and when the image or the discovery is absent,
    [startSynthesis] changes nothing and issues no call. *)
Theorem synthesis_needs_discovery (es : list Event) :
  (step (app (fst (sys_run boot es))) = 2 ->
   is_Some (siteDiscovery (app (fst (sys_run boot es))))
   /\ exists img, uploadedImage (app (fst (sys_run boot es))) = Some img
                  /\ img <> [])
  /\ siteDiscovery (app (fst (sys_run boot es)))
     = last_discovery (snd (sys_run boot es)) None
  /\ (forall pre img p d post,
        snd (sys_run boot es)
        = pre ++ Issued (CallGenerateDesignConcept img p d) :: post ->
        last_discovery pre None = Some d)
  /\ ((uploadedImage (app (fst (sys_run boot es))) = None
       \/ uploadedImage (app (fst (sys_run boot es))) = Some []
       \/ siteDiscovery (app (fst (sys_run boot es))) = None) ->
      sys_step (fst (sys_run boot es)) ClickStartSynthesis
      = (fst (sys_run boot es), [])).
Proof.
  destruct (sys_run_facts es boot) as (Hinv & Hlast & Hcalls).
  { intros Hstep. discriminate. }
  split; [exact Hinv|]. split; [exact Hlast|]. split.
  - intros pre img p d post Heq.
    eapply calls_follow_split; [exact Hcalls | exact Heq].
  - set (y := fst (sys_run boot es)). intros Habsent.
    cbn [sys_step]. unfold startSynthesis.
    destruct y as [s pend]. cbn [app pending] in *.
    destruct Habsent as [-> | [-> | ->]]; cbn [truthy_str].
    + reflexivity.
    + destruct (siteDiscovery s); reflexivity.
    + destruct (uploadedImage s); reflexivity.
Qed.

End AppFacts.

(** ** Realtime voice session *)

Section VoiceInstance.
Import Voice.

Lemma Qmax_l a b : (a <= Qmax a b)%Q.
Proof.
  unfold Qmax. destruct (Qle_bool a b) eqn:E.
  - now apply Qle_bool_iff.
  - apply Qle_refl.
Qed.

Lemma Qmax_r a b : (b <= Qmax a b)%Q.
Proof.
  unfold Qmax. destruct (Qle_bool a b) eqn:E.
  - apply Qle_refl.
  - apply Qlt_le_weak, Qnot_le_lt. intros Hle.
    apply Qle_bool_iff in Hle. congruence.
Qed.

Definition Qdur (frames rate : N) : Q :=
  (inject_Z (Z.of_N frames) / inject_Z (Z.of_N rate))%Q.

Lemma Qdur_nonneg n r : (0 <= Qdur n r)%Q.
Proof.
  unfold Qdur, Qdiv. apply Qmult_le_0_compat.
  - change 0%Q with (inject_Z 0). rewrite <- Zle_Qle. lia.
  - apply Qinv_le_0_compat.
    change 0%Q with (inject_Z 0). rewrite <- Zle_Qle. lia.
Qed.

Lemma Qadd_nonneg a d : (0 <= d)%Q -> (a <= a + d)%Q.
Proof.
  intros Hd. rewrite <- (Qplus_0_r a) at 1.
  apply Qplus_le_compat; [apply Qle_refl | exact Hd].
Qed.

#[export] Instance Q_timeline : Timeline Q := {|
  tle := Qle;
  tzero := 0%Q;
  tadd := Qplus;
  tmax := Qmax;
  tdur := Qdur;
  tle_refl := Qle_refl;
  tle_trans := Qle_trans;
  tmax_l := Qmax_l;
  tmax_r := Qmax_r;
  tadd_nonneg := Qadd_nonneg;
  tdur_nonneg := Qdur_nonneg
|}.

End VoiceInstance.

Section PlaybackFacts.
Import Voice.
Context {T : Type} `{Timeline T}.

(** No chunk starts before an earlier chunk has ended. *)
Fixpoint no_overlap (l : list (Chunk T)) : Prop :=
  match l with
  | [] => True
  | c :: r =>
      Forall (fun c' => tle (chunk_end c) (chunk_start c')) r /\ no_overlap r
  end.

Lemma no_overlap_snoc l c :
  no_overlap l ->
  Forall (fun c' => tle (chunk_end c') (chunk_start c)) l ->
  no_overlap (l ++ [c]).
Proof.
  induction l as [|c0 l IH]; intros Hl Hc; cbn [app no_overlap].
  - split; [constructor | exact I].
  - destruct Hl as [H0 Hl]. apply Forall_cons in Hc as [Hc0 Hc].
    split; [|apply IH; assumption].
    apply Forall_app. split; [exact H0|]. constructor; [exact Hc0 | constructor].
Qed.

(** What the scheduler maintains. *)
Record playback_inv (s : State T) : Prop := {
  inv_no_overlap : no_overlap (schedule (browser s));
  inv_ended :
    Forall (fun c => tle (chunk_end c) (nextStartTimeRef (refs s)))
      (schedule (browser s));
  inv_clock :
    Forall (fun c => tle (chunk_clock c) (chunk_start c)) (schedule (browser s));
  inv_decoding :
    map_Forall (fun _ d => tle (dec_clock d) (nextStartTimeRef (refs s)))
      (decoding (browser s))
}.

(** The part of the state the scheduler depends on. *)
Definition playback_view (s : State T) :=
  (schedule (browser s), nextStartTimeRef (refs s), decoding (browser s)).

Lemma playback_inv_view s s' :
  playback_view s' = playback_view s -> playback_inv s -> playback_inv s'.
Proof.
  unfold playback_view. intros [= Hs Hn Hd] [H1 H2 H3 H4].
  split; rewrite ?Hs, ?Hn, ?Hd; assumption.
Qed.

Lemma stopVoiceSession_view s :
  playback_view (stopVoiceSession s) = playback_view s.
Proof. reflexivity. Qed.

Lemma onmessage_inv m now s : playback_inv s -> playback_inv (onmessage m now s).
Proof.
  intros [H1 H2 H3 H4]. unfold onmessage.
  destruct (message_audio m) as [[base64Audio|]|]; try (split; assumption).
  destruct (outputAudioCtxRef (refs s)) as [ctx|]; try (split; assumption).
  destruct (truthy_str base64Audio); try (split; assumption).
  set (t := tmax (nextStartTimeRef (refs s)) now).
  assert (Hle : tle (nextStartTimeRef (refs s)) t) by apply tmax_l.
  assert (H2' : Forall (fun c => tle (chunk_end c) t) (schedule (browser s))).
  { eapply Forall_impl; [exact H2|]. intros c Hc.
    exact (tle_trans _ _ _ Hc Hle). }
  assert (H4' : map_Forall (fun _ d => tle (dec_clock d) t) (decoding (browser s))).
  { intros k d Hk. eapply tle_trans; [apply (H4 k d Hk) | exact Hle]. }
  destruct (rbind _ _) as [audioBuffer|e]; split;
    cbn [schedule browser refs nextStartTimeRef set_nextStartTime decoding];
    try assumption.
  apply map_Forall_insert_2; [apply tmax_r | exact H4'].
Qed.

Lemma onmessage_resume_inv k d s :
  decoding (browser s) !! k = Some d ->
  playback_inv s -> playback_inv (onmessage_resume k d s).
Proof.
  intros Hk [H1 H2 H3 H4].
  assert (Hd : tle tzero (duration (dec_buffer d))) by apply tdur_nonneg.
  assert (Hle : tle (nextStartTimeRef (refs s))
                  (tadd (nextStartTimeRef (refs s)) (duration (dec_buffer d))))
    by (apply tadd_nonneg; exact Hd).
  split; cbn [onmessage_resume schedule browser refs nextStartTimeRef decoding].
  - apply no_overlap_snoc; [exact H1 | exact H2].
  - apply Forall_app. split.
    + eapply Forall_impl; [exact H2|]. intros c Hc.
      exact (tle_trans _ _ _ Hc Hle).
    + constructor; [apply tle_refl | constructor].
  - apply Forall_app. split; [exact H3|].
    constructor; [|constructor]. cbn [chunk_clock chunk_start].
    apply (H4 k d Hk).
  - intros k' d' Hk'. apply lookup_delete_Some in Hk' as [_ Hk'].
    eapply tle_trans; [apply (H4 k' d' Hk') | exact Hle].
Qed.

Lemma step_playback_inv s e : playback_inv s -> playback_inv (step s e).
Proof.
  intros Hs. destruct e; cbn [step].
  - unfold handleVoiceConsult.
    destruct (_ || _); eapply playback_inv_view; try exact Hs; reflexivity.
  - destruct (flows (browser s) !! f) as [[]|]; try exact Hs.
    eapply playback_inv_view; [|exact Hs]. reflexivity.
  - destruct (flows (browser s) !! f) as [[]|]; try exact Hs.
    eapply playback_inv_view; [|exact Hs]. reflexivity.
  - destruct (flows (browser s) !! f) as [[]|]; try exact Hs.
    eapply playback_inv_view; [|exact Hs]. reflexivity.
  - destruct (flows (browser s) !! f) as [[]|]; try exact Hs.
    eapply playback_inv_view; [|exact Hs]. reflexivity.
  - destruct (bool_decide _); try exact Hs.
    eapply playback_inv_view; [|exact Hs]. reflexivity.
  - destruct (isVoiceConsultOpen (ui s)); try exact Hs.
    eapply playback_inv_view; [|exact Hs]. reflexivity.
  - now apply onmessage_inv.
  - destruct (decoding (browser s) !! k) as [d|] eqn:Hk; try exact Hs.
    now apply onmessage_resume_inv.
Qed.

Lemma run_playback_inv es : forall s, playback_inv s -> playback_inv (run s es).
Proof.
  induction es as [|e es IH]; intros s Hs; [exact Hs|].
  apply IH, step_playback_inv, Hs.
Qed.

Lemma init_playback_inv : playback_inv init.
Proof.
  split; cbn; try constructor. apply map_Forall_empty.
Qed.

(** The next-start time never decreases, whatever the state. *)
Lemma step_nextStart_mono s e :
  tle (nextStartTimeRef (refs s)) (nextStartTimeRef (refs (step s e))).
Proof.
  destruct e; cbn [step].
  - unfold handleVoiceConsult. destruct (_ || _); apply tle_refl.
  - destruct (flows (browser s) !! f) as [[]|]; apply tle_refl.
  - destruct (flows (browser s) !! f) as [[]|]; apply tle_refl.
  - destruct (flows (browser s) !! f) as [[]|]; apply tle_refl.
  - destruct (flows (browser s) !! f) as [[]|]; apply tle_refl.
  - destruct (bool_decide _); apply tle_refl.
  - destruct (isVoiceConsultOpen (ui s)); apply tle_refl.
  - unfold onmessage.
    destruct (message_audio m) as [[base64Audio|]|]; try apply tle_refl.
    destruct (outputAudioCtxRef (refs s)); try apply tle_refl.
    destruct (truthy_str base64Audio); try apply tle_refl.
    destruct (rbind _ _); cbn; apply tmax_l.
  - destruct (decoding (browser s) !! k) as [d|]; [|apply tle_refl].
    cbn. apply tadd_nonneg, tdur_nonneg.
Qed.

(** C5.  After any sequence of events of the voice session (inbound
    messages, their decoding, and everything else the session does):
    no scheduled chunk starts before an earlier one has ended; every
    chunk starts no earlier than the playback clock read for it, so its
    delay is not negative; every chunk ends by the next-start time; and
    the next-start time does not decrease at any further event. *)
Theorem playback_schedule (es : list Event) (e : Event) :
  no_overlap (schedule (browser (run init es)))
  /\ Forall (fun c => tle (chunk_clock c) (chunk_start c))
       (schedule (browser (run init es)))
  /\ Forall (fun c => tle (chunk_end c) (nextStartTimeRef (refs (run init es))))
       (schedule (browser (run init es)))
  /\ tle (nextStartTimeRef (refs (run init es)))
       (nextStartTimeRef (refs (step (run init es) e))).
Proof.
  destruct (run_playback_inv es init init_playback_inv) as [H1 H2 H3 _].
  repeat split; try assumption. apply step_nextStart_mono.
Qed.

End PlaybackFacts.

Section SessionFacts.
Import Voice.

(** C6 fails on the code, which has no cancellation of an attempt in
    flight.  In the first run the action is invoked while connecting:
    the teardown finds nothing stored, the attempt in flight is not
    cancelled, a third invocation starts a second attempt, and both
    attempts open their session.  In the second run every invocation
    happens while the button is enabled: the close callback of the
    session that was terminated arrives while the next attempt is
    connecting and resets the connecting flag, so the guard lets a
    further attempt start, and two sessions are open.  Invoking the
    action then, with the open flag set, closes only the stored session:
    the other one stays open while the flags say closed. *)
Lemma two_sessions_open :
  open_sessions (browser (run (T := Q) init
    [InvokeVoiceConsult; InvokeVoiceConsult; InvokeVoiceConsult;
     MicGranted 0; SessionOpened 0; MicGranted 1; SessionOpened 1]))
  = {[ 5%nat; 9%nat ]}
  /\ open_sessions (browser (run (T := Q) init
    [InvokeVoiceConsult; MicGranted 0; SessionOpened 0; ClickTerminate;
     InvokeVoiceConsult; ChannelDown 4; InvokeVoiceConsult;
     MicGranted 5; SessionOpened 5; MicGranted 6; SessionOpened 6]))
  = {[ 10%nat; 14%nat ]}
  /\ ui (run (T := Q) init
    [InvokeVoiceConsult; MicGranted 0; SessionOpened 0; ClickTerminate;
     InvokeVoiceConsult; ChannelDown 4; InvokeVoiceConsult;
     MicGranted 5; SessionOpened 5; MicGranted 6; SessionOpened 6])
  = {| isVoiceConsultOpen := true; isConnecting := false |}
  /\ open_sessions (browser (run (T := Q) init
    [InvokeVoiceConsult; MicGranted 0; SessionOpened 0; ClickTerminate;
     InvokeVoiceConsult; ChannelDown 4; InvokeVoiceConsult;
     MicGranted 5; SessionOpened 5; MicGranted 6; SessionOpened 6;
     InvokeVoiceConsult]))
  = {[ 10%nat ]}
  /\ ui (run (T := Q) init
    [InvokeVoiceConsult; MicGranted 0; SessionOpened 0; ClickTerminate;
     InvokeVoiceConsult; ChannelDown 4; InvokeVoiceConsult;
     MicGranted 5; SessionOpened 5; MicGranted 6; SessionOpened 6;
     InvokeVoiceConsult])
  = {| isVoiceConsultOpen := false; isConnecting := false |}.
Proof.
  split; [apply set_eq; intros x; vm_compute; set_solver|].
  split; [apply set_eq; intros x; vm_compute; set_solver|].
  split; [reflexivity|].
  split; [apply set_eq; intros x; vm_compute; set_solver|].
  reflexivity.
Qed.

Context {T : Type} `{Timeline T}.

(** What the guard of [handleVoiceConsult] does.  Invoked while the
    open flag or the connecting flag is set, the action is exactly the
    teardown: no connection attempt is
    started and none in flight is cancelled; the stored session is
    closed and no longer open, the tracks of the stored microphone
    stream are stopped, both stored audio contexts are closed, every
    pending playback source is stopped and the set is emptied, and both
    flags are reset.  If every open session is the stored one, no
    session is open afterwards. *)
Theorem voice_consult_toggles (s : State T) :
  isVoiceConsultOpen (ui s) || isConnecting (ui s) = true ->
  step s InvokeVoiceConsult = stopVoiceSession s
  /\ ui (step s InvokeVoiceConsult)
     = {| isVoiceConsultOpen := false; isConnecting := false |}
  /\ flows (browser (step s InvokeVoiceConsult)) = flows (browser s)
  /\ fresh (browser (step s InvokeVoiceConsult)) = fresh (browser s)
  /\ (forall n, liveSessionRef (refs s) = Some n ->
        n ∈ closed_sessions (browser (step s InvokeVoiceConsult))
        /\ n ∉ open_sessions (browser (step s InvokeVoiceConsult)))
  /\ (forall m, micStreamRef (refs s) = Some m ->
        m ∈ stopped_streams (browser (step s InvokeVoiceConsult)))
  /\ (forall c, inputAudioCtxRef (refs s) = Some c
                \/ outputAudioCtxRef (refs s) = Some c ->
        c ∈ closed_ctxs (browser (step s InvokeVoiceConsult)))
  /\ audioSourcesRef (refs s)
     ⊆ stopped_sources (browser (step s InvokeVoiceConsult))
  /\ audioSourcesRef (refs (step s InvokeVoiceConsult)) = ∅
  /\ (open_sessions (browser s) ⊆ opt_set (liveSessionRef (refs s)) ->
      open_sessions (browser (step s InvokeVoiceConsult)) = ∅).
Proof.
  intros Hflag. cbn [step]. unfold handleVoiceConsult. rewrite Hflag.
  split; [reflexivity|]. split; [reflexivity|]. split; [reflexivity|].
  split; [reflexivity|].
  cbn [stopVoiceSession browser refs closed_sessions open_sessions
       stopped_streams closed_ctxs stopped_sources audioSourcesRef].
  split.
  { intros n ->. cbn [opt_set]. split.
    - apply elem_of_union_r, elem_of_singleton. reflexivity.
    - rewrite elem_of_difference, elem_of_singleton. tauto. }
  split; [intros m ->; cbn [opt_set]; set_solver|].
  split; [intros c [-> | ->]; cbn [opt_set]; set_solver|].
  split; [set_solver|]. split; [reflexivity|].
  intros Hsub. apply set_eq. intros x.
  rewrite elem_of_difference, elem_of_empty.
  split; [|tauto]. intros [Hx Hnx]. apply Hnx, Hsub, Hx.
Qed.

End SessionFacts.

Section SessionWitness.
Import Voice Gemini.

(** A message carrying four bytes of PCM: two frames at 24 kHz. *)
Definition two_frames : LiveServerMessage :=
  {| serverContent :=
       Some {| modelTurn :=
                 Some {| parts :=
                           Some [{| inlineData :=
                                      Some {| blob_data := Some (js "AAAAAA==");
                                              blob_mimeType := None |};
                                    part_text := None |}] |} |} |}.

(** Two messages on an open session: the first chunk starts at the
    clock value read for it, the second when the first has ended. *)
Example two_chunks_scheduled :
  map (fun c => (chunk_start c, chunk_duration c, chunk_clock c))
    (schedule (browser (run (T := Q) init
       [InvokeVoiceConsult; MicGranted 0; SessionOpened 0;
        Message two_frames (1 # 2); Decoded 5;
        Message two_frames (1 # 2); Decoded 7])))
  = [((1 # 2)%Q, (2 # 24000)%Q, (1 # 2)%Q);
     ((1 # 2) + (2 # 24000), (2 # 24000)%Q, (1 # 2)%Q)%Q].
Proof. vm_compute. reflexivity. Qed.

Lemma voice_consult_toggles_witness :
  isVoiceConsultOpen
    (ui (run (T := Q) init [InvokeVoiceConsult; MicGranted 0; SessionOpened 0]))
  = true
  /\ open_sessions
       (browser (run (T := Q) init
                   [InvokeVoiceConsult; MicGranted 0; SessionOpened 0;
                    InvokeVoiceConsult])) = ∅.
Proof.
  split; [reflexivity|].
  pose proof (voice_consult_toggles
                (run (T := Q) init [InvokeVoiceConsult; MicGranted 0; SessionOpened 0])
                eq_refl) as (_ & _ & _ & _ & _ & _ & _ & _ & _ & Hnone).
  apply Hnone. vm_compute. set_solver.
Defined.

End SessionWitness.

(* ===================================================================== *)
(** * Further properties of the request shaper *)
(* ===================================================================== *)

Section ShaperExtras.
Import Gemini.

Lemma strip_prefix_Some p : forall s r, strip_prefix p s = Some r -> s = p ++ r.
Proof.
  induction p as [|c p IH]; intros s r; cbn [strip_prefix].
  - now intros [= ->].
  - destruct s as [|d s]; [discriminate|].
    destruct (N.eqb_spec c d) as [->|]; [|discriminate].
    intros Hr. cbn [app]. f_equal. now apply IH.
Qed.

Lemma strip_prefix_app p r : strip_prefix p (p ++ r) = Some r.
Proof.
  induction p as [|c p IH]; cbn [strip_prefix app]; [reflexivity|].
  now rewrite N.eqb_refl.
Qed.

Lemma span_spec f s :
  s = fst (span f s) ++ snd (span f s)
  /\ forallb f (fst (span f s)) = true.
Proof.
  induction s as [|c s [IH1 IH2]]; cbn [span]; [now split|].
  destruct (f c) eqn:Hc; [|now split].
  destruct (span f s) as [a b]. cbn [fst snd app forallb] in *.
  rewrite Hc, IH2. split; [now f_equal | reflexivity].
Qed.

(** A run of [f] followed by a character outside [f] is split there. *)
Lemma span_app f a c r :
  forallb f a = true -> f c = false -> span f (a ++ c :: r) = (a, c :: r).
Proof.
  induction a as [|x a IH]; cbn [forallb app span]; intros Ha Hc.
  - now rewrite Hc.
  - apply andb_true_iff in Ha as [Hx Ha]. rewrite Hx, (IH Ha Hc). reflexivity.
Qed.

Lemma strip_whitespace_app a b :
  strip_whitespace (a ++ b) = strip_whitespace a ++ strip_whitespace b.
Proof. apply List.filter_app. Qed.

Lemma strip_whitespace_id s :
  forallb (fun c => negb (is_regex_space c)) s = true -> strip_whitespace s = s.
Proof.
  induction s as [|c s IH]; cbn [forallb strip_whitespace List.filter];
    [reflexivity|].
  intros Hs. apply andb_true_iff in Hs as [Hc Hs]. rewrite Hc.
  f_equal. apply IH, Hs.
Qed.

Lemma strip_whitespace_idem s :
  strip_whitespace (strip_whitespace s) = strip_whitespace s.
Proof.
  apply strip_whitespace_id, forallb_forall. intros c Hc.
  now apply filter_In in Hc as [_ Hc].
Qed.

Lemma line_terminator_is_space c :
  is_line_terminator c = true -> is_regex_space c = true.
Proof.
  unfold is_line_terminator, is_regex_space. intros Hc.
  repeat (apply orb_true_iff in Hc as [Hc|Hc]);
    apply N.eqb_eq in Hc; subst c; reflexivity.
Qed.

(** What a match of the data-URI pattern says about the string. *)
Lemma match_data_uri_sound c m p :
  match_data_uri c = Some (m, p) ->
  c = js "data:" ++ m ++ js ";base64," ++ p /\ m <> [] /\ p <> [].
Proof.
  unfold match_data_uri.
  destruct (strip_prefix (js "data:") c) as [s1|] eqn:H1; [|discriminate].
  apply strip_prefix_Some in H1.
  destruct (span_spec is_alnum s1) as [H2 _].
  destruct (span is_alnum s1) as [ty s2]. cbn [fst snd] in H2.
  destruct ty as [|t0 ty]; [discriminate|].
  destruct s2 as [|c2 s3]; [discriminate|].
  destruct (N.eqb_spec c2 47) as [->|Hne].
  2:{ destruct c2 as [|pc]; [discriminate|].
      repeat (destruct pc as [pc|pc|]; try discriminate); contradiction. }
  destruct (span_spec is_subtype_char s3) as [H3 _].
  destruct (span is_subtype_char s3) as [sub s4]. cbn [fst snd] in H3.
  destruct sub as [|b0 sub]; [discriminate|].
  destruct (strip_prefix (js ";base64,") s4) as [payload|] eqn:H4; [|discriminate].
  apply strip_prefix_Some in H4.
  destruct (truthy_str payload && _) eqn:H5; [|discriminate].
  intros [= <- <-]. apply andb_true_iff in H5 as [H5 _].
  split; [|split; [discriminate | now destruct payload]].
  rewrite H1, H2, H3, H4. cbn [app]. rewrite <- !app_assoc. reflexivity.
Qed.

(** The converse: a string of the pattern's shape, with a payload free of
    white space, is matched, with its type, subtype and payload. *)
Lemma match_data_uri_complete (ty sub payload : jsstring) :
  ty <> [] -> forallb is_alnum ty = true ->
  sub <> [] -> forallb is_subtype_char sub = true ->
  payload <> [] ->
  Forall (fun c => is_regex_space c = false) payload ->
  match_data_uri (js "data:" ++ ty ++ 47 :: sub ++ js ";base64," ++ payload)
  = Some (ty ++ 47 :: sub, payload).
Proof.
  intros Hty Haln Hsub Hsc Hpl Hclean.
  assert (Hpay : forallb (fun c => negb (is_line_terminator c)) payload = true).
  { apply forallb_forall. intros c Hc.
    rewrite Forall_forall in Hclean.
    specialize (Hclean c (proj2 (list_elem_of_In _ _) Hc)).
    destruct (is_line_terminator c) eqn:Hl; [|reflexivity].
    apply line_terminator_is_space in Hl. congruence. }
  unfold match_data_uri.
  rewrite strip_prefix_app.
  rewrite (span_app is_alnum ty 47 _ Haln eq_refl).
  destruct ty as [|t0 ty]; [contradiction|].
  change (sub ++ js ";base64," ++ payload)
    with (sub ++ 59 :: (js "base64," ++ payload)).
  rewrite (span_app is_subtype_char sub 59 _ Hsc eq_refl).
  destruct sub as [|b0 sub]; [contradiction|].
  change (59 :: js "base64," ++ payload) with (js ";base64," ++ payload).
  rewrite strip_prefix_app, Hpay.
  destruct payload; [contradiction|]. reflexivity.
Qed.

Lemma split_comma_spec s :
  includes_comma s = true ->
  s = fst (split_comma s) ++ 44 :: snd (split_comma s).
Proof.
  induction s as [|c s IH]; cbn [includes_comma existsb split_comma];
    [discriminate|].
  destruct (N.eqb_spec c 44) as [->|Hc]; [reflexivity|].
  cbn [orb]. intros Hs. specialize (IH Hs).
  destruct (split_comma s) as [a b]. cbn [fst snd app] in *. now f_equal.
Qed.

(** X1.  For every input, [parseBase64] returns a non-empty MIME type
    and a payload without white space, and the payload is the end of the
    whitespace-stripped input: the stripped input is some header text
    followed by exactly the payload. *)
Theorem parseBase64_payload_is_suffix (s : jsstring) :
  mimeType (parseBase64 s) <> []
  /\ Forall (fun c => is_regex_space c = false) (data (parseBase64 s))
  /\ exists header, strip_whitespace s = header ++ data (parseBase64 s).
Proof.
  assert (Hsuffix : mimeType (parseBase64 s) <> []
                    /\ exists header,
                         strip_whitespace s = header ++ data (parseBase64 s)).
  { unfold parseBase64.
    destruct (match_data_uri (strip_whitespace s)) as [[m pl]|] eqn:Hm.
    - apply match_data_uri_sound in Hm as (Hc & Hm & _).
      cbn [mimeType data]. split; [exact Hm|].
      exists (js "data:" ++ m ++ js ";base64,").
      rewrite Hc, <- !app_assoc. reflexivity.
    - destruct (includes_comma (strip_whitespace s)) eqn:Hc.
      + pose proof (split_comma_spec _ Hc) as Hsplit.
        destruct (split_comma (strip_whitespace s)) as [part0 rest].
        cbn [mimeType data fst snd] in *. split.
        * destruct (match_header part0) as [h|] eqn:Hh; [|discriminate].
          now apply match_header_nonempty in Hh.
        * exists (part0 ++ [44]). rewrite <- app_assoc. exact Hsplit.
      + cbn [mimeType data]. split; [discriminate|]. now exists []. }
  destruct Hsuffix as (Hm & header & Hh).
  split; [exact Hm|]. split; [|now exists header].
  pose proof (strip_whitespace_clean s) as Hclean.
  rewrite Hh in Hclean. now apply Forall_app in Hclean as [_ Hclean].
Qed.

(** X2.  A data URI is recognised wherever white space is embedded in
    it: when the stripped input is data:, a type of letters and digits,
    a slash, a subtype of letters, digits, '-', '.', '+', then
    ;base64, and a non-empty payload, [parseBase64] returns exactly that
    type/subtype and that payload. *)
Theorem parseBase64_recognises_data_uri (s ty sub payload : jsstring) :
  strip_whitespace s
  = js "data:" ++ ty ++ 47 :: sub ++ js ";base64," ++ payload ->
  ty <> [] -> forallb is_alnum ty = true ->
  sub <> [] -> forallb is_subtype_char sub = true ->
  payload <> [] ->
  parseBase64 s = {| mimeType := ty ++ 47 :: sub; data := payload |}.
Proof.
  intros Hs Hty Haln Hsub Hsc Hpl.
  pose proof (strip_whitespace_clean s) as Hclean. rewrite Hs in Hclean.
  apply Forall_app in Hclean as [_ Hclean].
  apply Forall_app in Hclean as [_ Hclean].
  apply Forall_cons in Hclean as [_ Hclean].
  apply Forall_app in Hclean as [_ Hclean].
  apply Forall_app in Hclean as [_ Hclean].
  unfold parseBase64. rewrite Hs.
  rewrite (match_data_uri_complete ty sub payload) by assumption.
  reflexivity.
Qed.

Lemma parseBase64_recognises_data_uri_witness :
  parseBase64 (js "data: image/svg+xml ;base64, PHN2 Zz4=")
  = {| mimeType := js "image/svg+xml"; data := js "PHN2Zz4=" |}.
Proof.
  apply (parseBase64_recognises_data_uri (js "data: image/svg+xml ;base64, PHN2 Zz4=")
           (js "image") (js "svg+xml") (js "PHN2Zz4="));
    first [reflexivity | discriminate].
Defined.

(** X3.  What [extractImage] returns is accepted by [parseBase64].
    Whenever it returns a string, the first candidate has content whose
    parts contain a part with inline data, no part before it has any,
    and the string is the PNG data-URI prefix followed by the data of
    that part (the text undefined when the part carries no data);
    parsing the string gives MIME type image/png and that data without
    its white space. *)
Theorem extractImage_parses_back (r : GenerateContentResponse) (u : jsstring) :
  extractImage (Some r) = Ok (Some u) ->
  exists c0 cs ct before part after blob,
    candidates r = Some (c0 :: cs)
    /\ content c0 = Some ct
    /\ parts ct = Some (before ++ part :: after)
    /\ Forall (fun p => inlineData p = None) before
    /\ inlineData part = Some blob
    /\ u = js "data:image/png;base64," ++ show_opt (blob_data blob)
    /\ parseBase64 u
       = {| mimeType := js "image/png";
            data := strip_whitespace (show_opt (blob_data blob)) |}.
Proof.
  intros Hu. unfold extractImage in Hu.
  destruct (candidates r) as [[|c0 cs]|] eqn:Hcands; try discriminate.
  destruct (content c0) as [ct|] eqn:Hct; try discriminate.
  destruct (parts ct) as [ps|] eqn:Hps; try discriminate.
  destruct (List.find _ ps) as [part|] eqn:Hfind; try discriminate.
  destruct (inlineData part) as [blob|] eqn:Hblob; try discriminate.
  injection Hu as <-.
  assert (Hsplit : exists before after,
             ps = before ++ part :: after
             /\ Forall (fun p => inlineData p = None) before).
  { clear -Hfind. induction ps as [|p ps IH]; [discriminate|].
    cbn [List.find] in Hfind.
    destruct (bool_decide (is_Some (inlineData p))) eqn:Hp.
    - injection Hfind as ->. exists [], ps. split; [reflexivity | constructor].
    - destruct (IH Hfind) as (before & after & -> & Hall).
      exists (p :: before), after. split; [reflexivity|].
      constructor; [|exact Hall].
      apply bool_decide_eq_false_1 in Hp.
      destruct (inlineData p); [|reflexivity].
      exfalso. apply Hp. eauto. }
  destruct Hsplit as (before & after & -> & Hall).
  exists c0, cs, ct, before, part, after, blob.
  split; [reflexivity|]. split; [exact Hct|]. split; [exact Hps|].
  split; [exact Hall|]. split; [exact Hblob|]. split; [reflexivity|].
  set (d := show_opt (blob_data blob)).
  change (parseBase64 (js "data:image/png;base64," ++ d)
          = {| mimeType := js "image/png"; data := strip_whitespace d |}).
  assert (Hstrip : strip_whitespace (js "data:image/png;base64," ++ d)
                   = js "data:image/png;base64," ++ strip_whitespace d).
  { rewrite strip_whitespace_app. reflexivity. }
  destruct (strip_whitespace d) as [|d0 d'] eqn:Hd.
  - unfold parseBase64. rewrite Hstrip. reflexivity.
  - pose proof (strip_whitespace_clean d) as Hclean. rewrite Hd in Hclean.
    unfold parseBase64. rewrite Hstrip.
    change (js "data:image/png;base64," ++ d0 :: d')
      with (js "data:" ++ js "image" ++ 47 :: js "png"
            ++ js ";base64," ++ d0 :: d').
    rewrite (match_data_uri_complete (js "image") (js "png") (d0 :: d'));
      first [reflexivity | discriminate | exact Hclean].
Qed.

Lemma extractImage_parses_back_witness :
  parseBase64 (js "data:image/png;base64,iVBORw0KGgo=")
  = {| mimeType := js "image/png"; data := js "iVBORw0KGgo=" |}.
Proof.
  destruct (extractImage_parses_back (image_response "iVBORw0KGgo=")
              (js "data:image/png;base64,iVBORw0KGgo=") eq_refl)
    as (c0 & cs & ct & before & part & after & blob
        & Hcands & Hct & Hps & Hall & Hblob & Hu & Hparse).
  rewrite Hparse. f_equal.
  apply (f_equal (fun s => strip_whitespace (drop 22 s))) in Hu.
  symmetry. exact Hu.
Defined.

Lemma or_str_nonempty x d : d <> [] -> or_str x d <> [].
Proof.
  intros Hd. unfold or_str. destruct x as [[|c v]|]; cbn [truthy_str];
    first [exact Hd | discriminate].
Qed.

Lemma or_default_truthy x d : truthy d = true -> truthy (or_default x d) = true.
Proof.
  intros Hd. unfold or_default. destruct x as [v|]; [|exact Hd].
  destruct (truthy v) eqn:Hv; [exact Hv | exact Hd].
Qed.

(** The grounding chunks of the first candidate; none when a link of
    [candidates?.[0]?.groundingMetadata?.groundingChunks] is missing. *)
Definition first_chunks (response : GenerateContentResponse)
  : list GroundingChunk :=
  match candidates response with
  | Some (c0 :: _) =>
      match groundingMetadata c0 with
      | Some gm => match groundingChunks gm with Some cs => cs | None => [] end
      | None => []
      end
  | _ => []
  end.

(** The reference a chunk stands for: none without a non-empty web URI;
    otherwise that URI, with the chunk's title when it has a non-empty
    one and the fixed title when it has not. *)
Definition reference_of (chunk : GroundingChunk) : option Reference :=
  match web chunk with
  | Some w =>
      match web_uri w with
      | Some (c :: u) =>
          Some {| title := match web_title w with
                           | Some (t0 :: t) => t0 :: t
                           | _ => js "Architectural Source"
                           end;
                  uri := Some (c :: u) |}
      | _ => None
      end
  | None => None
  end.

(** The [map] and [filter] of the code select and build exactly these. *)
Lemma sources_are_references (cs : list GroundingChunk) :
  List.filter (fun s => match uri s with
                        | Some u => truthy_str u
                        | None => false
                        end)
    (map (fun chunk =>
            {| title := or_str (match web chunk with
                                | Some w => web_title w
                                | None => None
                                end) (js "Architectural Source");
               uri := match web chunk with
                      | Some w => web_uri w
                      | None => None
                      end |}) cs)
  = omap reference_of cs.
Proof.
  induction cs as [|chunk cs IH]; [reflexivity|].
  cbn [map List.filter omap list_omap uri]. rewrite IH. unfold reference_of.
  destruct (web chunk) as [w|]; [|reflexivity].
  destruct (web_uri w) as [[|c u]|]; cbn [truthy_str]; try reflexivity.
  destruct (web_title w) as [[|t0 t]|]; reflexivity.
Qed.

(** X4.  Whenever [analyzeSite] resolves, the image had a non-empty
    payload and exactly one request carrying that payload was issued.
    The analysis is the text of the answer, or the sentence Site
    analysis finalized. when the text is missing or empty, so it is
    never empty.  The references are those of the grounding chunks of
    the first candidate, in order: a chunk without a non-empty web URI
    gives none, and a chunk without a non-empty title gets the title
    Architectural Source; so every reference has a non-empty title and
    a non-empty URI. *)
Theorem analyzeSite_result (ai : service) (img : jsstring) (d : SiteDiscovery) :
  snd (analyzeSite ai img) = Ok d ->
  data (parseBase64 img) <> []
  /\ (exists req resp,
        fst (analyzeSite ai img) = [req]
        /\ req_inline req
           = Some (data (parseBase64 img), mimeType (parseBase64 img))
        /\ ai req = Ok resp
        /\ analysis d = match text resp with
                        | Some (c :: t) => c :: t
                        | _ => js "Site analysis finalized."
                        end
        /\ references d = omap reference_of (first_chunks resp))
  /\ analysis d <> []
  /\ Forall (fun r => title r <> [] /\ exists u, uri r = Some u /\ u <> [])
       (references d).
Proof.
  unfold analyzeSite.
  destruct (data (parseBase64 img)) as [|c0 pl] eqn:Hdata;
    cbn [truthy_str negb]; [discriminate|].
  unfold generateContent, bind.
  destruct (ai _) as [resp|e] eqn:Hai; [|discriminate].
  cbn [ret fst snd app]. intros [= <-].
  split; [discriminate|]. split.
  { eexists _, resp. split; [reflexivity|]. split; [reflexivity|].
    split; [exact Hai|]. cbn [analysis references]. split.
    - destruct (text resp) as [[|c t]|]; reflexivity.
    - unfold first_chunks.
      destruct (candidates resp) as [[|c1 cands]|]; try reflexivity.
      destruct (groundingMetadata c1) as [gm|]; [|reflexivity].
      destruct (groundingChunks gm) as [cs|]; [|reflexivity].
      apply sources_are_references. }
  cbn [analysis references]. split; [now apply or_str_nonempty|].
  destruct (match candidates resp with Some (c0 :: _) => _ | _ => None end)
    as [cs|]; [|constructor].
  apply Forall_forall. intros r Hr.
  apply list_elem_of_In, filter_In in Hr as [Hr Huri].
  apply in_map_iff in Hr as (chunk & <- & _). cbn [title uri] in *.
  split; [now apply or_str_nonempty|].
  destruct (match web chunk with Some w => web_uri w | None => None end)
    as [[|u0 u]|]; try discriminate.
  eexists. split; [reflexivity | discriminate].
Qed.

Definition grounded_response : GenerateContentResponse :=
  {| candidates :=
       Some [{| content := None;
                groundingMetadata :=
                  Some {| groundingChunks :=
                            Some [{| web := Some {| web_title := None;
                                                     web_uri := Some (js "https://example.org/code") |} |};
                                  {| web := None |}] |} |}];
     text := None |}.

Lemma analyzeSite_result_witness :
  analysis (match snd (analyzeSite (fun _ => Ok grounded_response) (js "QUJD")) with
            | Ok d => d
            | Throw _ => {| analysis := []; references := [] |}
            end) <> [].
Proof.
  destruct (analyzeSite_result (fun _ => Ok grounded_response) (js "QUJD")
              {| analysis := js "Site analysis finalized.";
                 references := [{| title := js "Architectural Source";
                                   uri := Some (js "https://example.org/code") |}] |}
              eq_refl) as (_ & _ & Ha & _).
  exact Ha.
Defined.

(** X5.  When the concept request is rejected, or is answered with
    JSON text for [null], [generateDesignConcept] rejects after that
    single request: no image request is issued. *)
Theorem generateDesignConcept_stops_early
  (ai : service) (env : Env) (img : jsstring) (prefs : DesignPreferences)
  (disc : SiteDiscovery) :
  (exists e, ai (concept_request prefs disc) = Throw e)
  \/ (exists resp, ai (concept_request prefs disc) = Ok resp
                   /\ parse_designData resp = JNull) ->
  exists e, generateDesignConcept ai env img prefs disc
            = ([concept_request prefs disc], Throw e).
Proof.
  intros [[e He] | (resp & Hr & Hnull)];
    unfold generateDesignConcept, generateContent; unfold bind at 1.
  - rewrite He. eauto.
  - rewrite Hr, Hnull. cbn. eauto.
Qed.

Lemma generateDesignConcept_stops_early_witness :
  exists e, generateDesignConcept (service_answering (js "null")) sample_env
              (js "QUJD") sample_preferences sample_discovery
            = ([concept_request sample_preferences sample_discovery], Throw e).
Proof.
  apply generateDesignConcept_stops_early. right.
  exists (text_response (js "null")). split; reflexivity.
Defined.

(** X6.  Whenever [generateDesignConcept] resolves: exactly three
    requests were issued, the concept request and then the exterior and
    the plan request, both carrying the parsed image and the design's
    name; the design records the discovery's analysis and the
    preferences it was given, has no versions, takes its id and date
    from the environment; its four JSON fields are truthy; and its three
    image fields are non-empty, the interior being the placeholder. *)
Theorem generateDesignConcept_result
  (ai : service) (env : Env) (img : jsstring) (prefs : DesignPreferences)
  (disc : SiteDiscovery) (d : ArchitecturalDesign) :
  snd (generateDesignConcept ai env img prefs disc) = Ok d ->
  fst (generateDesignConcept ai env img prefs disc)
  = [concept_request prefs disc;
     exterior_request (parseBase64 img) (name d) prefs;
     plan_request (parseBase64 img) (name d)]
  /\ siteAnalysis d = analysis disc /\ preferences d = prefs
  /\ versions d = [] /\ id d = random_id env /\ createdAt d = now_iso env
  /\ truthy (name d) = true /\ truthy (description d) = true
  /\ truthy (floorPlanJson d) = true /\ truthy (costs d) = true
  /\ exterior (visualizations d) <> []
  /\ interior (visualizations d) = placeholder_interior
  /\ plan (visualizations d) <> [].
Proof.
  unfold generateDesignConcept, generateContent, bind, lift, promise_all2,
    catch, ret.
  destruct (ai (concept_request prefs disc)) as [resp|e]; [|discriminate].
  destruct (finalizedDesignData (parse_designData resp)) as [fin|e] eqn:Hfin;
    [|discriminate].
  assert (Htruthy : truthy (fin_name fin) = true
                    /\ truthy (fin_description fin) = true
                    /\ truthy (fin_floorPlanJson fin) = true
                    /\ truthy (fin_costs fin) = true).
  { destruct (parse_designData resp) eqn:Hv;
      try (rewrite finalizedDesignData_ok in Hfin by discriminate;
           injection Hfin as <-; cbn [fin_name fin_description
             fin_floorPlanJson fin_costs];
           repeat split; now apply or_default_truthy). }
  cbn [fst snd].
  destruct (ai (exterior_request _ _ _)) as [r1|e1];
    [|cbn [fst snd app]; rewrite extractImage_null; discriminate].
  destruct (ai (plan_request _ _)) as [r2|e2];
    [|cbn [fst snd app]; rewrite extractImage_null; discriminate].
  destruct (extractImage_response r1) as [o1 Ho1].
  destruct (extractImage_response r2) as [o2 Ho2].
  cbn [fst snd app]. rewrite Ho1. cbn [fst snd app]. rewrite Ho2.
  cbn [fst snd app]. intros [= <-].
  cbn [name description floorPlanJson costs siteAnalysis preferences versions
       id createdAt visualizations exterior interior plan].
  destruct Htruthy as (H1 & H2 & H3 & H4).
  repeat (split; [first [reflexivity | assumption]|]).
  split; [apply or_str_nonempty; discriminate|].
  split; [reflexivity | apply or_str_nonempty; discriminate].
Qed.

Lemma generateDesignConcept_result_witness :
  interior
    (visualizations
       (match snd (generateDesignConcept (service_answering (js "{}")) sample_env
                     (js "QUJD") sample_preferences sample_discovery) with
        | Ok d => d
        | Throw _ =>
            {| name := JNull; description := JNull; floorPlanJson := JNull;
               costs := JNull; id := []; siteAnalysis := [];
               preferences := sample_preferences; createdAt := [];
               versions := [];
               visualizations :=
                 {| exterior := []; interior := []; plan := [] |} |}
        end))
  = placeholder_interior.
Proof.
  destruct (snd (generateDesignConcept (service_answering (js "{}")) sample_env
                   (js "QUJD") sample_preferences sample_discovery))
    as [d|e] eqn:Hrun; [|vm_compute in Hrun; discriminate].
  destruct (generateDesignConcept_result _ _ _ _ _ d Hrun)
    as (_ & _ & _ & _ & _ & _ & _ & _ & _ & _ & _ & Hint & _).
  exact Hint.
Defined.

(** Every string [extractImage] returns starts with the PNG data-URI
    prefix. *)
Lemma extractImage_prefix (r : GenerateContentResponse) (u : jsstring) :
  extractImage (Some r) = Ok (Some u) ->
  exists d, u = js "data:image/png;base64," ++ d.
Proof.
  intros Hu. unfold extractImage in Hu.
  destruct (candidates r) as [[|c0 cs]|]; try discriminate.
  destruct (content c0) as [ct|]; try discriminate.
  destruct (parts ct) as [ps|]; try discriminate.
  destruct (List.find _ ps) as [part|]; try discriminate.
  destruct (inlineData part) as [blob|]; try discriminate.
  injection Hu as <-. eauto.
Qed.

(** X26.  [promptEditImage] issues exactly one request; it rejects
    exactly when the service does, with the same error; for an answer
    with an inline part it resolves with the string [extractImage]
    returns, and for an answer without one with the input string itself,
    untouched: not stripped, and with its header if it had one. *)
Theorem promptEditImage_result (ai : service) (img prompt : jsstring) :
  exists req,
    fst (promptEditImage ai img prompt) = [req]
    /\ (forall e, snd (promptEditImage ai img prompt) = Throw e
                  <-> ai req = Throw e)
    /\ (forall resp, ai req = Ok resp ->
          (extractImage (Some resp) = Ok None ->
           snd (promptEditImage ai img prompt) = Ok img)
          /\ (forall u, extractImage (Some resp) = Ok (Some u) ->
                u <> [] /\ snd (promptEditImage ai img prompt) = Ok u)).
Proof.
  unfold promptEditImage, generateContent, bind, lift, ret.
  eexists. split; [|split].
  - destruct (ai _) as [resp|e]; [|reflexivity].
    destruct (extractImage_response resp) as [o ->]. reflexivity.
  - intros e. destruct (ai _) as [resp|e0]; cbn [fst snd].
    + destruct (extractImage_response resp) as [o ->]. cbn [fst snd].
      split; discriminate.
    + split; intros [= <-]; reflexivity.
  - intros resp Hresp. rewrite Hresp. cbn [fst snd]. split.
    + intros ->. reflexivity.
    + intros u Hu. rewrite Hu. cbn [fst snd].
      destruct (extractImage_prefix resp u Hu) as [d ->].
      split; [discriminate | reflexivity].
Qed.

End ShaperExtras.

(* ===================================================================== *)
(** * Consultation, export and chat *)
(* ===================================================================== *)

Section ConsultExtras.
Import Gemini Consult.

Lemma grounding_uris_nonempty r : Forall (fun u => u <> []) (grounding_uris r).
Proof.
  unfold grounding_uris.
  destruct (match candidates r with Some (c0 :: _) => _ | _ => None end)
    as [cs|]; [|constructor].
  apply Forall_forall. intros u Hu.
  apply list_elem_of_omap in Hu as (chunk & _ & Hu).
  destruct (web chunk) as [w|]; [|discriminate].
  destruct (web_uri w) as [[|u0 u']|]; cbn [truthy_str] in Hu;
    try discriminate.
  injection Hu as <-. discriminate.
Qed.

(** X7.  [askArchitect] sends the whole history, in order and with the
    texts unchanged, followed by the new message as the last, user turn.
    The turn sent for a message of the history has role user when the
    message has role user, and role model for every other role.  It
    passes a rejection of the service on, and every source of a reply
    is a non-empty URI. *)
Theorem askArchitect_contents_shape
  (ai : chat_service) (message : jsstring) (history : list Message) :
  length (fst (askArchitect ai message history)) = S (length history)
  /\ map turn_text (fst (askArchitect ai message history))
     = map content history ++ [Some message]
  /\ (forall i h, history !! i = Some h ->
        exists t, fst (askArchitect ai message history) !! i = Some t
                  /\ turn_text t = content h
                  /\ (role h = js "user" -> turn_role t = js "user")
                  /\ (role h <> js "user" -> turn_role t = js "model"))
  /\ last (fst (askArchitect ai message history))
     = Some {| turn_role := js "user"; turn_text := Some message |}
  /\ Forall (fun t => turn_role t = js "user" \/ turn_role t = js "model")
       (fst (askArchitect ai message history))
  /\ (forall e, ai (fst (askArchitect ai message history)) = Throw e ->
        snd (askArchitect ai message history) = Throw e)
  /\ (forall r, snd (askArchitect ai message history) = Ok r ->
        Forall (fun u => u <> []) (reply_sources r)).
Proof.
  cbn [askArchitect fst snd]. unfold askArchitect_contents.
  split; [rewrite length_app, length_map; cbn; lia|].
  split; [rewrite map_app, map_map; reflexivity|].
  split.
  { intros i h Hi. exists (turn_of h). split.
    - rewrite lookup_app_l by (rewrite length_map; eapply lookup_lt_Some, Hi).
      rewrite list_lookup_fmap, Hi. reflexivity.
    - unfold turn_of. cbn [turn_text turn_role]. split; [reflexivity|].
      split; intros Hr.
      + rewrite bool_decide_eq_true_2 by exact Hr. reflexivity.
      + rewrite bool_decide_eq_false_2 by exact Hr. reflexivity. }
  split; [apply last_snoc|].
  split.
  - apply Forall_app. split.
    + apply Forall_forall. intros t Ht.
      apply list_elem_of_In, in_map_iff in Ht as (h & <- & _).
      unfold turn_of. cbn [turn_role]. destruct (bool_decide _); auto.
    + constructor; [now left | constructor].
  - split.
    + intros e ->. reflexivity.
    + intros r. destruct (ai _) as [resp|e]; cbn [rbind]; [|discriminate].
      intros [= <-]. apply grounding_uris_nonempty.
Qed.

(** X25.  [getTutorialContent] issues exactly one request, without an
    image and with the feature key in its prompt; it rejects exactly
    when the service does, with the same error; and the sentence it
    resolves with is never empty. *)
Theorem getTutorialContent_sentence (ai : service) (featureKey : jsstring) :
  (exists req,
     fst (getTutorialContent ai featureKey) = [req]
     /\ req_inline req = None
     /\ In (Lit featureKey) (req_text req)
     /\ (forall e, ai req = Throw e ->
           snd (getTutorialContent ai featureKey) = Throw e)
     /\ (forall e, snd (getTutorialContent ai featureKey) = Throw e ->
           ai req = Throw e))
  /\ (forall t, snd (getTutorialContent ai featureKey) = Ok t -> t <> []).
Proof.
  unfold getTutorialContent, generateContent, bind, ret.
  set (req := text_request _).
  destruct (ai req) as [resp|e] eqn:Hreq; cbn [fst snd app].
  - split.
    + exists req. rewrite Hreq. split; [reflexivity|]. split; [reflexivity|].
      split; [right; left; reflexivity|]. split; intros e; discriminate.
    + intros t [= <-]. apply or_str_nonempty. discriminate.
  - split.
    + exists req. rewrite Hreq. split; [reflexivity|]. split; [reflexivity|].
      split; [right; left; reflexivity|].
      split; intros e' [= <-]; reflexivity.
    + intros t. discriminate.
Qed.

End ConsultExtras.

Section HandlerExtras.
Import Gemini Consult Handlers.

Lemma replace_spaces_cons_space c s :
  is_regex_space c = true ->
  replace_spaces (c :: s)
  = match s with
    | [] => [95]
    | d :: _ => if is_regex_space d then replace_spaces s
                else 95 :: replace_spaces s
    end.
Proof. intros Hc. cbn [replace_spaces]. now rewrite Hc. Qed.

Lemma replace_spaces_no_space s :
  Forall (fun c => is_regex_space c = false) (replace_spaces s).
Proof.
  induction s as [|c s IH]; [constructor|].
  destruct (is_regex_space c) eqn:Hc.
  - rewrite (replace_spaces_cons_space c s Hc).
    destruct s as [|d s']; [constructor; [reflexivity | constructor]|].
    destruct (is_regex_space d);
      [exact IH | constructor; [reflexivity | exact IH]].
  - cbn [replace_spaces]. rewrite Hc. constructor; assumption.
Qed.

(** X8.  The file-name transformation leaves no white space: every
    character of [replace_spaces s] is outside the white-space class;
    the result is never longer than [s]; it is empty only for the empty
    string; and a string without white space is returned unchanged. *)
Theorem replace_spaces_spec (s : jsstring) :
  Forall (fun c => is_regex_space c = false) (replace_spaces s)
  /\ (length (replace_spaces s) <= length s)%nat
  /\ (replace_spaces s = [] -> s = [])
  /\ (Forall (fun c => is_regex_space c = false) s -> replace_spaces s = s).
Proof.
  induction s as [|c s (IH1 & IH2 & IH3 & IH4)].
  - repeat split; auto.
  - destruct (is_regex_space c) eqn:Hc.
    + rewrite (replace_spaces_cons_space c s Hc).
      destruct s as [|d s'].
      * split; [repeat constructor|]. split; [cbn; lia|].
        split; [discriminate|]. intros Hall.
        apply Forall_cons in Hall as [Hc' _]. congruence.
      * destruct (is_regex_space d) eqn:Hd.
        -- split; [exact IH1|]. split; [cbn [length] in *; lia|]. split.
           ++ intros He. specialize (IH3 He). discriminate.
           ++ intros Hall. apply Forall_cons in Hall as [Hc' _]. congruence.
        -- split; [constructor; [reflexivity | exact IH1]|].
           split; [cbn [length] in *; lia|]. split; [discriminate|].
           intros Hall. apply Forall_cons in Hall as [Hc' _]. congruence.
    + cbn [replace_spaces]. rewrite Hc.
      split; [constructor; assumption|]. split; [cbn [length]; lia|].
      split; [discriminate|]. intros Hall.
      apply Forall_cons in Hall as [_ Hall]. f_equal. now apply IH4.
Qed.

Example replace_spaces_run :
  replace_spaces (js "Dune  House on	the hill ") = js "Dune_House_on_the_hill_".
Proof. reflexivity. Qed.

Lemma handleExport_spec generator suffix ty ai s design :
  (forall ai' d, length (fst (generator ai' d)) = 1%nat) ->
  generatedDesign s = Some design -> isExporting s = false ->
  exists reqs dl,
    handleExport generator suffix ty ai s
    = (reqs, dl, {| generatedDesign := Some design; isExporting := false |})
    /\ length reqs = 1%nat
    /\ (forall d, dl = Some d ->
          exists n c,
            name design = JStr n /\ snd (generator ai design) = Ok c
            /\ d = {| download_name := replace_spaces n ++ suffix;
                      download_content := c; download_type := ty |})
    /\ ((forall n, name design <> JStr n) -> dl = None).
Proof.
  intros Hone Hd He. unfold handleExport. rewrite Hd, He.
  specialize (Hone ai design). unfold bind, lift, ret.
  destruct (generator ai design) as [log [c|e]]; cbn [fst snd] in *.
  - destruct (name design) as [| | |n| |] eqn:Hn; cbn [name_for_file];
      do 2 eexists; (split; [reflexivity|]);
      (split; [rewrite ?app_nil_r; exact Hone|]);
      split; try discriminate; try reflexivity.
    + intros d [= <-]. exists n, c. auto.
    + intros Hnot. now destruct (Hnot n).
  - do 2 eexists. split; [reflexivity|]. split; [exact Hone|].
    split; [discriminate | reflexivity].
Qed.

Lemma generate3DModelFile_one_request ai d :
  length (fst (generate3DModelFile ai d)) = 1%nat.
Proof.
  unfold generate3DModelFile, generateContent, bind, ret.
  destruct (ai _); reflexivity.
Qed.

Lemma generateGLTFModelFile_one_request ai d :
  length (fst (generateGLTFModelFile ai d)) = 1%nat.
Proof.
  unfold generateGLTFModelFile, generateContent, bind, ret.
  destruct (ai _); reflexivity.
Qed.

Lemma generateGLTFModelFile_nonempty ai d c :
  snd (generateGLTFModelFile ai d) = Ok c -> c <> [].
Proof.
  unfold generateGLTFModelFile, generateContent, bind, ret.
  destruct (ai _) as [resp|e]; cbn [snd]; [|discriminate].
  intros [= <-]. apply or_str_nonempty. discriminate.
Qed.

(** X9.  An export with a design present and no export running issues
    exactly one request and leaves the exporting flag cleared.  Whenever
    it offers a file, the design's name is a string and the file name is
    that name with each run of white space replaced by one underscore,
    followed by _model.obj or _model.gltf, so it contains no white
    space; a GLTF file is never empty.  When the name is not a string
    the request is still issued and no file is offered. *)
Theorem export_outcomes
  (ai : service) (s : ExportState) (design : ArchitecturalDesign) :
  generatedDesign s = Some design -> isExporting s = false ->
  (exists reqs dl,
     handleExportOBJ ai s
     = (reqs, dl, {| generatedDesign := Some design; isExporting := false |})
     /\ length reqs = 1%nat
     /\ (forall d, dl = Some d ->
           exists n, name design = JStr n
                     /\ download_name d = replace_spaces n ++ js "_model.obj"
                     /\ Forall (fun c => is_regex_space c = false)
                          (download_name d))
     /\ ((forall n, name design <> JStr n) -> dl = None))
  /\ (exists reqs dl,
        handleExportGLTF ai s
        = (reqs, dl, {| generatedDesign := Some design; isExporting := false |})
        /\ length reqs = 1%nat
        /\ (forall d, dl = Some d ->
              exists n, name design = JStr n
                        /\ download_name d = replace_spaces n ++ js "_model.gltf"
                        /\ Forall (fun c => is_regex_space c = false)
                             (download_name d)
                        /\ download_content d <> [])
        /\ ((forall n, name design <> JStr n) -> dl = None)).
Proof.
  intros Hd He. split.
  - destruct (handleExport_spec generate3DModelFile (js "_model.obj")
                (js "text/plain") ai s design generate3DModelFile_one_request
                Hd He) as (reqs & dl & Hrun & Hlen & Hdl & Hnone).
    exists reqs, dl. split; [exact Hrun|]. split; [exact Hlen|].
    split; [|exact Hnone].
    intros d Hsome. destruct (Hdl d Hsome) as (n & c & Hn & _ & ->).
    exists n. split; [exact Hn|]. split; [reflexivity|].
    cbn [download_name]. apply Forall_app. split.
    + apply replace_spaces_no_space.
    + apply Forall_forall. intros x Hx.
      apply list_elem_of_In in Hx. cbn in Hx.
      repeat (destruct Hx as [<-|Hx]; [reflexivity|]). contradiction.
  - destruct (handleExport_spec generateGLTFModelFile (js "_model.gltf")
                (js "application/json") ai s design
                generateGLTFModelFile_one_request Hd He)
      as (reqs & dl & Hrun & Hlen & Hdl & Hnone).
    exists reqs, dl. split; [exact Hrun|]. split; [exact Hlen|].
    split; [|exact Hnone].
    intros d Hsome. destruct (Hdl d Hsome) as (n & c & Hn & Hc & ->).
    exists n. split; [exact Hn|]. split; [reflexivity|].
    cbn [download_name download_content]. split.
    + apply Forall_app. split.
      * apply replace_spaces_no_space.
      * apply Forall_forall. intros x Hx.
        apply list_elem_of_In in Hx. cbn in Hx.
        repeat (destruct Hx as [<-|Hx]; [reflexivity|]). contradiction.
    + eapply generateGLTFModelFile_nonempty, Hc.
Qed.

Definition sample_design : ArchitecturalDesign :=
  {| name := JStr (js "Dune House"); description := default_description;
     floorPlanJson := default_floorPlanJson; costs := default_costs;
     id := js "k3x9q0z1a"; siteAnalysis := js "Flat coastal plot.";
     preferences := sample_preferences;
     createdAt := js "2025-01-01T00:00:00.000Z"; versions := [];
     visualizations := {| exterior := placeholder_exterior;
                          interior := placeholder_interior;
                          plan := placeholder_plan |} |}.

Lemma export_outcomes_witness :
  exists reqs dl,
    handleExportOBJ (service_answering (js "v 0 0 0"))
      {| generatedDesign := Some sample_design; isExporting := false |}
    = (reqs, dl, {| generatedDesign := Some sample_design; isExporting := false |})
    /\ length reqs = 1%nat.
Proof.
  destruct (export_outcomes (service_answering (js "v 0 0 0"))
              {| generatedDesign := Some sample_design; isExporting := false |}
              sample_design eq_refl eq_refl)
    as [(reqs & dl & Hrun & Hlen & _) _].
  exists reqs, dl. split; [exact Hrun | exact Hlen].
Defined.

Example export_file_name :
  snd (fst (handleExportOBJ (service_answering (js "v 0 0 0"))
              {| generatedDesign := Some sample_design; isExporting := false |}))
  = Some {| download_name := js "Dune_House_model.obj";
            download_content := js "v 0 0 0";
            download_type := js "text/plain" |}.
Proof. reflexivity. Qed.

(** X10.  [handleRefineRealism] reads the answer without the guards of
    [extractImage].  Whenever it produces a design, that design is the
    old one with only the exterior replaced, by exactly the string
    [extractImage] returns for the same answer; when it changes nothing,
    [extractImage] returns null; and it throws, always a TypeError, only
    on answers for which [extractImage] returns null. *)
Theorem refined_design_spec
  (refined : GenerateContentResponse) (design : ArchitecturalDesign) :
  (forall d', refined_design refined design = Ok (Some d') ->
     extractImage (Some refined) = Ok (Some (exterior (visualizations d')))
     /\ name d' = name design /\ description d' = description design
     /\ floorPlanJson d' = floorPlanJson design /\ costs d' = costs design
     /\ id d' = id design /\ siteAnalysis d' = siteAnalysis design
     /\ preferences d' = preferences design /\ createdAt d' = createdAt design
     /\ versions d' = versions design
     /\ interior (visualizations d') = interior (visualizations design)
     /\ plan (visualizations d') = plan (visualizations design))
  /\ (refined_design refined design = Ok None ->
      extractImage (Some refined) = Ok None)
  /\ (forall e, refined_design refined design = Throw e ->
        e = TypeError /\ extractImage (Some refined) = Ok None).
Proof.
  unfold refined_design, extractImage.
  destruct (candidates refined) as [[|c0 cs]|];
    [| |]; try (repeat split; try discriminate; intros; congruence);
    try (split; [discriminate|]; split; [discriminate|];
         intros e [= <-]; split; reflexivity).
  destruct (Gemini.content c0) as [ct|];
    try (split; [discriminate|]; split; [discriminate|];
         intros e [= <-]; split; reflexivity).
  destruct (parts ct) as [ps|];
    try (split; [discriminate|]; split; [discriminate|];
         intros e [= <-]; split; reflexivity).
  destruct (List.find _ ps) as [part|];
    try (split; [discriminate|]; split; [reflexivity | discriminate]).
  destruct (inlineData part) as [blob|];
    try (split; [discriminate|]; split; [reflexivity | discriminate]).
  split; [|split; discriminate].
  intros d' [= <-]. cbn. repeat split.
Qed.

(** *** Chat *)

Definition count_role (r : string) (h : list Message) : nat :=
  length (List.filter (fun m => bool_decide (role m = js r)) h).

Lemma count_role_snoc r h m :
  count_role r (h ++ [m])
  = (count_role r h + if bool_decide (role m = js r) then 1 else 0)%nat.
Proof.
  unfold count_role. rewrite List.filter_app, length_app. cbn [List.filter].
  destruct (bool_decide _); reflexivity.
Qed.

Lemma chat_step_prefix s e : chatHistory s `prefix_of` chatHistory (chat_step s e).
Proof.
  destruct e as [t|t|k ai]; cbn [chat_step].
  - reflexivity.
  - unfold handleSendMessage. destruct (is_blank t); [reflexivity|].
    cbn [chatHistory]. now eexists.
  - destruct (asking s !! k) as [contents|]; [|reflexivity].
    unfold handleSendMessage_settled.
    destruct (rbind _ _); cbn [chatHistory]; [now eexists | reflexivity].
Qed.

(** X11.  The chat history only grows: whatever happens next (typing,
    sending, answers arriving in any order, rejected requests), the
    history so far stays as the beginning of the later history.  A
    message that is empty or all white space changes nothing and starts
    no request. *)
Theorem chat_history_grows (s : ChatState) (es : list ChatEvent) :
  chatHistory s `prefix_of` chatHistory (chat_run s es)
  /\ (forall t, is_blank t = true -> chat_step s (Send t) = s).
Proof.
  split.
  - revert s. induction es as [|e es IH]; intros s; [reflexivity|].
    cbn [chat_run fold_left]. etransitivity; [apply chat_step_prefix|].
    apply IH.
  - intros t Ht. cbn [chat_step]. unfold handleSendMessage. now rewrite Ht.
Qed.

(** Replies and requests in flight never outnumber the user's
    messages, and only the two roles occur. *)
Definition chat_inv (s : ChatState) : Prop :=
  (count_role "model" (chatHistory s) + length (asking s)
   <= count_role "user" (chatHistory s))%nat
  /\ Forall (fun m => role m = js "user" \/ role m = js "model") (chatHistory s)
  /\ Forall (fun contents =>
               exists t, last contents
                         = Some {| turn_role := js "user"; turn_text := Some t |})
       (asking s).

Lemma chat_step_inv s e : chat_inv s -> chat_inv (chat_step s e).
Proof.
  intros (Hc & Hr & Ha). destruct e as [t|t|k ai]; cbn [chat_step].
  - exact (conj Hc (conj Hr Ha)).
  - unfold handleSendMessage. destruct (is_blank t); [exact (conj Hc (conj Hr Ha))|].
    unfold chat_inv. cbn [chatHistory asking].
    rewrite !count_role_snoc, length_app. cbn [role length].
    split; [|split].
    + change (bool_decide (js "user" = js "model")) with false.
      change (bool_decide (js "user" = js "user")) with true. cbv iota. lia.
    + apply Forall_app. split; [exact Hr|]. constructor; [now left | constructor].
    + apply Forall_app. split; [exact Ha|]. constructor; [|constructor].
      exists t. unfold askArchitect_contents. apply last_snoc.
  - destruct (asking s !! k) as [contents|] eqn:Hk; [|exact (conj Hc (conj Hr Ha))].
    assert (Hlen : length (delete k (asking s)) = (length (asking s) - 1)%nat).
    { apply length_delete. eauto. }
    assert (Hpos : (0 < length (asking s))%nat).
    { apply lookup_lt_Some in Hk. lia. }
    assert (Ha' : Forall (fun contents =>
                            exists t, last contents
                              = Some {| turn_role := js "user"; turn_text := Some t |})
                    (delete k (asking s))).
    { apply Forall_delete, Ha. }
    unfold handleSendMessage_settled, chat_inv.
    destruct (rbind _ _) as [res|err]; cbn [chatHistory asking].
    + rewrite !count_role_snoc. cbn [role].
      change (bool_decide (js "model" = js "model")) with true.
      change (bool_decide (js "model" = js "user")) with false. cbv iota.
      split; [lia|]. split; [|exact Ha'].
      apply Forall_app. split; [exact Hr|]. constructor; [now right | constructor].
    + split; [lia|]. split; [exact Hr | exact Ha'].
Qed.

(** X12.  In every state of the chat panel reached from the empty
    one: the messages with role model plus the requests still in flight
    never outnumber the messages with role user; no other role occurs;
    and every request in flight ends with a user turn. *)
Theorem replies_follow_questions (es : list ChatEvent) :
  (count_role "model" (chatHistory (chat_run chat_init es))
   + length (asking (chat_run chat_init es))
   <= count_role "user" (chatHistory (chat_run chat_init es)))%nat
  /\ Forall (fun m => role m = js "user" \/ role m = js "model")
       (chatHistory (chat_run chat_init es))
  /\ Forall (fun contents =>
               exists t, last contents
                         = Some {| turn_role := js "user"; turn_text := Some t |})
       (asking (chat_run chat_init es)).
Proof.
  assert (Hrun : forall s, chat_inv s -> chat_inv (chat_run s es)).
  { induction es as [|e es IH]; intros s Hs; [exact Hs|].
    cbn [chat_run fold_left]. apply IH, chat_step_inv, Hs. }
  apply (Hrun chat_init). unfold chat_inv. cbn. repeat split; constructor.
Qed.

End HandlerExtras.

(* ===================================================================== *)
(** * Further properties of the orchestrator *)
(* ===================================================================== *)

Section AppExtras.
Import Gemini App Handlers.

(** The designs obtained in a trace, oldest first. *)
Fixpoint designs_of (tr : list Obs) : list ArchitecturalDesign :=
  match tr with
  | [] => []
  | Synthesized d :: tr' => d :: designs_of tr'
  | _ :: tr' => designs_of tr'
  end.

Lemma designs_of_app a b : designs_of (a ++ b) = designs_of a ++ designs_of b.
Proof.
  induction a as [|o a IH]; [reflexivity|].
  destruct o; cbn [Datatypes.app designs_of]; first [exact IH | now f_equal].
Qed.

Definition images_populated (d : ArchitecturalDesign) : Prop :=
  exterior (visualizations d) <> []
  /\ interior (visualizations d) <> []
  /\ plan (visualizations d) <> [].

Lemma generateDesignConcept_images ai env img prefs disc d :
  snd (generateDesignConcept ai env img prefs disc) = Ok d ->
  images_populated d.
Proof.
  unfold generateDesignConcept, generateContent, bind, lift, promise_all2,
    catch, ret.
  destruct (ai (concept_request prefs disc)) as [resp|e]; [|discriminate].
  destruct (finalizedDesignData (parse_designData resp)) as [fin|e];
    [|discriminate].
  cbn [fst snd].
  destruct (ai (exterior_request _ _ _)) as [r1|e1];
    [|cbn [fst snd app]; rewrite extractImage_null; discriminate].
  destruct (ai (plan_request _ _)) as [r2|e2];
    [|cbn [fst snd app]; rewrite extractImage_null; discriminate].
  destruct (extractImage_response r1) as [o1 Ho1].
  destruct (extractImage_response r2) as [o2 Ho2].
  cbn [fst snd app]. rewrite Ho1. cbn [fst snd app]. rewrite Ho2.
  cbn [fst snd app]. intros [= <-]. unfold images_populated.
  cbn [visualizations exterior interior plan].
  split; [apply or_str_nonempty; discriminate|].
  split; [discriminate | apply or_str_nonempty; discriminate].
Qed.

Lemma sys_step_projects y e :
  projects (app (fst (sys_step y e)))
  = rev (designs_of (snd (sys_step y e))) ++ projects (app y)
  /\ (Forall images_populated (projects (app y)) ->
      Forall images_populated (projects (app (fst (sys_step y e))))).
Proof.
  destruct e as [img| |k ai env|v|p|i]; cbn [sys_step].
  - cbn. auto.
  - unfold startSynthesis.
    destruct (uploadedImage (app y)) as [img|]; [|cbn; auto].
    destruct (siteDiscovery (app y)) as [d|]; [|cbn; auto].
    destruct (truthy_str img); cbn; auto.
  - destruct (pending y !! k) as [[img|img p d]|]; [| |cbn; auto].
    + destruct (analyzeSite ai img) as [reqs [d|err]]; cbn; auto.
    + destruct (generateDesignConcept ai env img p d) as [reqs [dsg|err]] eqn:Hg;
        cbn; [|auto].
      split; [reflexivity|]. intros Hall. constructor; [|exact Hall].
      apply (generateDesignConcept_images ai env img p d). now rewrite Hg.
  - cbn. auto.
  - cbn. auto.
  - destruct (projects (app y) !! i); cbn; auto.
Qed.

(** X13.  After any sequence of events the project list is exactly
    the designs obtained from fulfilled syntheses, newest first: none is
    lost, duplicated or reordered.  Every project in it has a non-empty
    exterior, interior and plan image. *)
Theorem projects_are_the_syntheses (es : list Event) :
  projects (app (fst (sys_run boot es)))
  = rev (designs_of (snd (sys_run boot es)))
  /\ Forall images_populated (projects (app (fst (sys_run boot es)))).
Proof.
  assert (Hgen : forall y,
    projects (app (fst (sys_run y es)))
    = rev (designs_of (snd (sys_run y es))) ++ projects (app y)
    /\ (Forall images_populated (projects (app y)) ->
        Forall images_populated (projects (app (fst (sys_run y es)))))).
  { induction es as [|e es IH]; intros y; cbn [sys_run]; [cbn; auto|].
    destruct (sys_step_projects y e) as [H1 H2].
    destruct (sys_step y e) as [y1 o1]. cbn [fst snd] in *.
    destruct (IH y1) as [H3 H4].
    destruct (sys_run y1 es) as [y2 o2]. cbn [fst snd] in *.
    split; [|auto].
    rewrite H3, H1, designs_of_app, rev_app_distr, <- app_assoc. reflexivity. }
  destruct (Hgen boot) as [H1 H2]. split.
  - rewrite H1. cbn. apply app_nil_r.
  - apply H2. constructor.
Qed.

(** X14.  The analysis of an image with an empty payload issues no
    request.  Whenever such a call settles, in any state and whatever
    happened since the capture, the discovery fails and only the
    generating flag changes: step, view, stored discovery, stored image
    and projects stay as they are.  The image is not discarded: when it
    is the stored image, is not the empty string, and a discovery from
    an earlier capture is stored, the synthesis control issues the
    synthesis call with that image and that discovery. *)
Theorem unparseable_capture
  (y : Sys) (k : nat) (img : jsstring) (ai : service) (env : Env) :
  pending y !! k = Some (CallAnalyzeSite img) ->
  data (parseBase64 img) = [] ->
  snd (sys_step y (Settle k ai env)) = [Requests []; DiscoveryFailed]
  /\ pending (fst (sys_step y (Settle k ai env))) = delete k (pending y)
  /\ isGenerating (app (fst (sys_step y (Settle k ai env)))) = false
  /\ step (app (fst (sys_step y (Settle k ai env)))) = step (app y)
  /\ viewMode (app (fst (sys_step y (Settle k ai env)))) = viewMode (app y)
  /\ siteDiscovery (app (fst (sys_step y (Settle k ai env))))
     = siteDiscovery (app y)
  /\ uploadedImage (app (fst (sys_step y (Settle k ai env))))
     = uploadedImage (app y)
  /\ projects (app (fst (sys_step y (Settle k ai env)))) = projects (app y)
  /\ (forall d, uploadedImage (app y) = Some img ->
        siteDiscovery (app y) = Some d -> img <> [] ->
        snd (sys_step (fst (sys_step y (Settle k ai env))) ClickStartSynthesis)
        = [Issued (CallGenerateDesignConcept img (preferences (app y)) d)]).
Proof.
  intros Hk Hd. cbn [sys_step]. rewrite Hk.
  rewrite (analyzeSite_invalid ai img Hd).
  cbn [fst snd app pending startDiscovery_settled step viewMode isGenerating
       siteDiscovery uploadedImage projects].
  do 8 (split; [reflexivity|]).
  intros d Himg Hdisc Hne. unfold startSynthesis.
  cbn [uploadedImage siteDiscovery preferences]. rewrite Himg, Hdisc.
  destruct img as [|c img']; [contradiction|]. reflexivity.
Qed.

Lemma unparseable_capture_witness :
  snd (sys_run boot
         [Capture (js "QUJD"); Capture (js "   ");
          Settle 0 (service_answering (js "flat site")) sample_env;
          Settle 0 (service_answering (js "flat site")) sample_env;
          ClickStartSynthesis])
  = [Issued (CallAnalyzeSite (js "QUJD")); Issued (CallAnalyzeSite (js "   "));
     Requests (fst (analyzeSite (service_answering (js "flat site")) (js "QUJD")));
     Discovered {| analysis := js "flat site"; references := [] |};
     Requests []; DiscoveryFailed;
     Issued (CallGenerateDesignConcept (js "   ") (preferences init)
               {| analysis := js "flat site"; references := [] |})].
Proof.
  pose (y := fst (sys_run boot
                    [Capture (js "QUJD"); Capture (js "   ");
                     Settle 0 (service_answering (js "flat site")) sample_env])).
  destruct (unparseable_capture y 0 (js "   ")
              (service_answering (js "flat site")) sample_env eq_refl eq_refl)
    as (Hobs & _ & _ & _ & _ & _ & _ & _ & Hsyn).
  specialize (Hsyn {| analysis := js "flat site"; references := [] |}
                eq_refl eq_refl ltac:(discriminate)).
  change (snd (sys_run boot
                 [Capture (js "QUJD"); Capture (js "   ");
                  Settle 0 (service_answering (js "flat site")) sample_env])
          ++ snd (sys_step y (Settle 0 (service_answering (js "flat site"))
                                sample_env))
          ++ snd (sys_step
                    (fst (sys_step y (Settle 0 (service_answering (js "flat site"))
                                        sample_env)))
                    ClickStartSynthesis) ++ []
          = [Issued (CallAnalyzeSite (js "QUJD"));
             Issued (CallAnalyzeSite (js "   "));
             Requests (fst (analyzeSite (service_answering (js "flat site"))
                              (js "QUJD")));
             Discovered {| analysis := js "flat site"; references := [] |};
             Requests []; DiscoveryFailed;
             Issued (CallGenerateDesignConcept (js "   ") (preferences init)
                       {| analysis := js "flat site"; references := [] |})]).
  rewrite Hobs, Hsyn. reflexivity.
Defined.

Lemma sys_step_range y e : step (app y) <= 2 -> step (app (fst (sys_step y e))) <= 2.
Proof.
  intros Hy. destruct e as [img| |k ai env|v|p|i]; cbn [sys_step].
  - cbn. lia.
  - unfold startSynthesis.
    destruct (uploadedImage (app y)) as [img|]; [|exact Hy].
    destruct (siteDiscovery (app y)) as [d|]; [|exact Hy].
    destruct (truthy_str img); [cbn; lia | exact Hy].
  - destruct (pending y !! k) as [[img|img p d]|]; [| |exact Hy].
    + destruct (analyzeSite ai img) as [reqs [d|err]]; cbn; [lia | exact Hy].
    + destruct (generateDesignConcept ai env img p d) as [reqs [dsg|err]];
        exact Hy.
  - exact Hy.
  - exact Hy.
  - destruct (projects (app y) !! i); exact Hy.
Qed.

(** X15.  The wizard's step is always 0, 1 or 2, and the stepper drawn
    for it marks exactly that step as current, the steps before it as
    completed and the steps after it as upcoming, with a connector after
    every step but the last. *)
Theorem stepper_marks_one_step (es : list Event) :
  step (app (fst (sys_run boot es))) <= 2
  /\ map step_status (DesignStepper (step (app (fst (sys_run boot es)))) steps)
     = replicate (N.to_nat (step (app (fst (sys_run boot es))))) Completed
       ++ [Current]
       ++ replicate (2 - N.to_nat (step (app (fst (sys_run boot es))))) Upcoming
  /\ map step_connector (DesignStepper (step (app (fst (sys_run boot es)))) steps)
     = [true; true; false].
Proof.
  assert (Hrange : forall y, step (app y) <= 2 ->
                             step (app (fst (sys_run y es))) <= 2).
  { induction es as [|e es IH]; intros y Hy; cbn [sys_run]; [exact Hy|].
    pose proof (sys_step_range y e Hy) as H1.
    destruct (sys_step y e) as [y1 o1]. cbn [fst] in H1.
    specialize (IH y1 H1). destruct (sys_run y1 es). exact IH. }
  specialize (Hrange boot). cbn [boot app init step] in Hrange.
  assert (H2 : step (app (fst (sys_run boot es))) <= 2) by (apply Hrange; lia).
  revert H2. generalize (step (app (fst (sys_run boot es)))).
  intros n Hn. split; [exact Hn|].
  destruct n as [|[p|[p|p|]|]]; try lia; split; reflexivity.
Qed.

End AppExtras.

(* ===================================================================== *)
(** * Further properties of the capture flow *)
(* ===================================================================== *)

Section CaptureExtras.
Import CameraCapture.

Lemma run_ready_progress es :
  forall s, (phase s = ready -> 100 <= syncProgress s) ->
            phase (fst (run s es)) = ready -> 100 <= syncProgress (fst (run s es)).
Proof. intros s Hs. exact (run_gate_inv es s Hs). Qed.

(** X16.  Re-aligning does not restart the readiness gate: in every
    reachable state where the capture control is shown, clicking
    re-align returns to the aligning phase with the readiness value
    unchanged and the set-point control already enabled, so one more
    click, without any tick, shows the capture control again. *)
Theorem realign_keeps_gate_open (es : list Event) :
  capture_control (fst (run init es)) = true ->
  phase (fst (step (fst (run init es)) ClickRealign)) = aligning
  /\ syncProgress (fst (step (fst (run init es)) ClickRealign))
     = syncProgress (fst (run init es))
  /\ set_point_enabled (fst (step (fst (run init es)) ClickRealign)) = true
  /\ capture_control (fst (run (fst (run init es)) [ClickRealign; ClickSetPoint]))
     = true.
Proof.
  intros Hcap.
  assert (Hp : 100 <= syncProgress (fst (run init es))).
  { apply (run_ready_progress es init); [discriminate|].
    now apply capture_control_ready. }
  set (s := fst (run init es)) in *.
  assert (Herr : no_error s = true).
  { unfold capture_control in Hcap. now apply andb_true_iff in Hcap as [He _]. }
  assert (Hset : set_point_enabled (set_phase aligning s) = true).
  { unfold set_point_enabled, no_error, is_aligning in *.
    cbn [set_phase error phase syncProgress]. rewrite Herr. cbn [andb].
    apply negb_true_iff, N.ltb_ge, Hp. }
  cbn [run step]. rewrite Hcap. cbn [fst].
  split; [reflexivity|]. split; [reflexivity|]. split; [exact Hset|].
  rewrite Hset. cbn [fst]. unfold capture_control, no_error, is_aligning in *.
  cbn [set_phase error phase]. now rewrite Herr.
Qed.

Lemma realign_keeps_gate_open_witness :
  capture_control
    (fst (run (fst (run init [Tick 14; Tick 14; Tick 14; Tick 14; Tick 14;
                              Tick 14; Tick 14; Tick 9; ClickSetPoint]))
            [ClickRealign; ClickSetPoint]))
  = true.
Proof.
  apply (realign_keeps_gate_open
           [Tick 14; Tick 14; Tick 14; Tick 14; Tick 14; Tick 14; Tick 14;
            Tick 9; ClickSetPoint]).
  reflexivity.
Defined.

(** X17.  Once the camera has failed, the component never calls
    [onCapture]: in every run from a state with the error set, over the
    timer and every control of the component, the error stays set, the
    phase, the readiness value and the facing mode stay as they were,
    and the only callbacks invoked are [onClose] and [onUpload].  There
    Upload File invokes [onClose] and then [onUpload], and Cancel
    invokes [onClose]. *)
Theorem camera_error_leaves_upload (s : State) (es : list Overlay.Event) :
  error s <> None ->
  error (fst (Overlay.run s es)) <> None
  /\ phase (fst (Overlay.run s es)) = phase s
  /\ syncProgress (fst (Overlay.run s es)) = syncProgress s
  /\ facingMode (fst (Overlay.run s es)) = facingMode s
  /\ Forall (fun c => c = Overlay.OnClose \/ c = Overlay.OnUpload)
       (snd (Overlay.run s es))
  /\ Overlay.step s Overlay.ClickUploadFile
     = (s, [Overlay.OnClose; Overlay.OnUpload])
  /\ Overlay.step s Overlay.ClickCancel = (s, [Overlay.OnClose]).
Proof.
  intros Herr.
  assert (Hno : forall s0 : State, error s0 <> None -> no_error s0 = false).
  { intros s0 H0. unfold no_error.
    destruct (error s0); [reflexivity | contradiction]. }
  assert (Hstep : forall (s0 : State) e, error s0 <> None ->
            error (fst (Overlay.step s0 e)) <> None
            /\ phase (fst (Overlay.step s0 e)) = phase s0
            /\ syncProgress (fst (Overlay.step s0 e)) = syncProgress s0
            /\ facingMode (fst (Overlay.step s0 e)) = facingMode s0
            /\ Forall (fun c => c = Overlay.OnClose \/ c = Overlay.OnUpload)
                 (snd (Overlay.step s0 e))).
  { intros s0 e H0. pose proof (Hno s0 H0) as Hn.
    destruct e as [e'| | |]; cbn [Overlay.step]; rewrite ?Hn; cbn [fst snd].
    - destruct e'; cbn [step];
        unfold interval_running, set_point_enabled, capture_control;
        rewrite ?Hn; rewrite ?andb_false_r;
        cbn [andb fst snd error phase syncProgress facingMode];
        (split; [first [exact H0 | discriminate]|]);
        do 3 (split; [reflexivity|]); constructor.
    - do 4 (split; [first [exact H0 | reflexivity]|]).
      constructor; [now left | constructor].
    - do 4 (split; [first [exact H0 | reflexivity]|]).
      constructor; [now left|]. constructor; [now right | constructor].
    - do 4 (split; [first [exact H0 | reflexivity]|]).
      constructor; [now left | constructor]. }
  assert (Hrun : error (fst (Overlay.run s es)) <> None
            /\ phase (fst (Overlay.run s es)) = phase s
            /\ syncProgress (fst (Overlay.run s es)) = syncProgress s
            /\ facingMode (fst (Overlay.run s es)) = facingMode s
            /\ Forall (fun c => c = Overlay.OnClose \/ c = Overlay.OnUpload)
                 (snd (Overlay.run s es))).
  { revert s Herr. induction es as [|e es IH]; intros s Herr.
    - cbn. do 4 (split; [first [exact Herr | reflexivity]|]). constructor.
    - cbn [Overlay.run].
      destruct (Hstep s e Herr) as (H1 & H2 & H3 & H4 & H5).
      destruct (Overlay.step s e) as [s1 out]. cbn [fst snd] in *.
      destruct (IH s1 H1) as (I1 & I2 & I3 & I4 & I5).
      destruct (Overlay.run s1 es) as [s2 outs]. cbn [fst snd] in *.
      split; [exact I1|]. split; [congruence|]. split; [congruence|].
      split; [congruence|]. apply Forall_app. split; assumption. }
  destruct Hrun as (R1 & R2 & R3 & R4 & R5).
  do 5 (split; [assumption|]).
  cbn [Overlay.step]. rewrite (Hno s Herr). split; reflexivity.
Qed.

Lemma camera_error_leaves_upload_witness :
  Forall (fun c => c = Overlay.OnClose \/ c = Overlay.OnUpload)
    (snd (Overlay.run
            (fst (run init [CameraFailed "Camera unavailable. Check permissions."]))
            [Overlay.Camera (Tick 7); Overlay.Camera (ClickCapture (js "x"));
             Overlay.ClickUploadFile; Overlay.ClickClose])).
Proof.
  pose proof (camera_error_leaves_upload
                (fst (run init [CameraFailed "Camera unavailable. Check permissions."]))
                [Overlay.Camera (Tick 7); Overlay.Camera (ClickCapture (js "x"));
                 Overlay.ClickUploadFile; Overlay.ClickClose]
                ltac:(discriminate)) as (_ & _ & _ & _ & Hcalls & _).
  exact Hcalls.
Defined.

(** The frames clicked for in a sequence of events. *)
Definition clicked_frames (es : list Event) : list jsstring :=
  omap (fun e => match e with ClickCapture f => Some f | _ => None end) es.

(** X18.  The frames handed to [onCapture] are frames that were
    clicked for, in the order of the clicks: the output of a run is a
    sublist of its capture clicks; none is invented, repeated or
    reordered. *)
Theorem captured_frames_sublist (s : State) (es : list Event) :
  snd (run s es) `sublist_of` clicked_frames es.
Proof.
  revert s. induction es as [|e es IH]; intros s; cbn [run]; [constructor|].
  specialize (IH (fst (step s e))).
  destruct (step s e) as [s1 out] eqn:Hstep. cbn [fst] in IH.
  destruct (run s1 es) as [s2 outs]. cbn [snd] in *.
  destruct e; cbn [step] in Hstep;
    repeat match type of Hstep with
    | context [if ?b then _ else _] => destruct b
    end; injection Hstep as <- <-;
    unfold clicked_frames; cbn [omap list_omap];
    first [exact IH | now constructor | now apply sublist_cons].
Qed.

End CaptureExtras.

(* ===================================================================== *)
(** * Further properties of the voice session *)
(* ===================================================================== *)

Section SourceFacts.
Import Voice.
Context {T : Type} `{Timeline T}.

(** Every started source has a number of its own, and is either still in
    the set of sources or has been stopped. *)
Record source_inv (s : State T) : Prop := {
  src_fresh :
    Forall (fun c => (chunk_source c < fresh (browser s))%nat)
      (schedule (browser s));
  src_tracked :
    Forall (fun c => chunk_source c ∈ audioSourcesRef (refs s)
                                      ∪ stopped_sources (browser s))
      (schedule (browser s));
  src_distinct : NoDup (map chunk_source (schedule (browser s)))
}.

Lemma source_inv_mono s s' :
  schedule (browser s') = schedule (browser s) ->
  (fresh (browser s) <= fresh (browser s'))%nat ->
  audioSourcesRef (refs s) ∪ stopped_sources (browser s)
  ⊆ audioSourcesRef (refs s') ∪ stopped_sources (browser s') ->
  source_inv s -> source_inv s'.
Proof.
  intros Hs Hf Hsub [H1 H2 H3]. split; rewrite Hs.
  - eapply Forall_impl; [exact H1|]. intros c Hc. cbv beta in *. lia.
  - eapply Forall_impl; [exact H2|]. intros c Hc. cbv beta in *.
    apply Hsub, Hc.
  - exact H3.
Qed.

Lemma stopVoiceSession_source_inv s : source_inv s -> source_inv (stopVoiceSession s).
Proof.
  apply source_inv_mono; [reflexivity | reflexivity|].
  cbn [stopVoiceSession refs browser audioSourcesRef stopped_sources].
  intros x Hx. apply elem_of_union in Hx as [Hx|Hx];
    apply elem_of_union_r, elem_of_union; [now right | now left].
Qed.

Lemma step_source_inv s e : source_inv s -> source_inv (step s e).
Proof.
  intros Hs. destruct e; cbn [step].
  - unfold handleVoiceConsult. destruct (_ || _).
    + now apply stopVoiceSession_source_inv.
    + eapply source_inv_mono; [| | |exact Hs]; cbn; [reflexivity | lia | reflexivity].
  - destruct (flows (browser s) !! f) as [[]|]; try exact Hs.
    eapply source_inv_mono; [| | |exact Hs]; cbn; [reflexivity | lia | reflexivity].
  - destruct (flows (browser s) !! f) as [[]|]; try exact Hs.
    unfold connect_failed. apply stopVoiceSession_source_inv.
    eapply source_inv_mono; [| | |exact Hs]; cbn; [reflexivity | lia | reflexivity].
  - destruct (flows (browser s) !! f) as [[]|]; try exact Hs.
    eapply source_inv_mono; [| | |exact Hs]; cbn; [reflexivity | lia | reflexivity].
  - destruct (flows (browser s) !! f) as [[]|]; try exact Hs.
    unfold connect_failed. apply stopVoiceSession_source_inv.
    eapply source_inv_mono; [| | |exact Hs]; cbn; [reflexivity | lia | reflexivity].
  - destruct (bool_decide _); try exact Hs.
    unfold channel_down. apply stopVoiceSession_source_inv.
    eapply source_inv_mono; [| | |exact Hs]; cbn; [reflexivity | lia | reflexivity].
  - destruct (isVoiceConsultOpen (ui s)); try exact Hs.
    now apply stopVoiceSession_source_inv.
  - unfold onmessage.
    destruct (message_audio m) as [[base64Audio|]|]; try exact Hs.
    destruct (outputAudioCtxRef (refs s)); try exact Hs.
    destruct (truthy_str base64Audio); try exact Hs.
    destruct (rbind _ _);
      (eapply source_inv_mono; [| | |exact Hs]; cbn; [reflexivity | lia | reflexivity]).
  - destruct (decoding (browser s) !! k) as [d|]; try exact Hs.
    destruct Hs as [H1 H2 H3].
    split; cbn [onmessage_resume browser refs schedule fresh audioSourcesRef
                stopped_sources].
    + apply Forall_app. split.
      * eapply Forall_impl; [exact H1|]. intros c Hc. cbv beta in *. lia.
      * constructor; [cbn; lia | constructor].
    + apply Forall_app. split.
      * eapply Forall_impl; [exact H2|]. intros c Hc. cbv beta in *.
        apply elem_of_union in Hc as [Hc|Hc].
        -- apply elem_of_union_l, elem_of_union_l, Hc.
        -- apply elem_of_union_r, Hc.
      * constructor; [|constructor]. cbn [chunk_source].
        apply elem_of_union_l, elem_of_union_r, elem_of_singleton. reflexivity.
    + rewrite map_app. cbn [map chunk_source]. apply NoDup_app.
      split; [exact H3|]. split; [|apply NoDup_singleton].
      intros x Hx Hx'. apply list_elem_of_singleton in Hx'. subst x.
      apply list_elem_of_fmap in Hx as (c & Hc & Hin).
      rewrite Forall_forall in H1. specialize (H1 c Hin). cbv beta in H1. lia.
Qed.

(** X19.  In every state of the voice session, the playback sources
    that have been started are pairwise distinct, and each of them is
    either still in the set of pending sources or has been stopped; so
    right after any teardown every source started so far is stopped and
    the set is empty. *)
Theorem teardown_stops_every_source (es : list Event) :
  NoDup (map chunk_source (schedule (browser (run init es))))
  /\ Forall (fun c => chunk_source c
                      ∈ audioSourcesRef (refs (run init es))
                        ∪ stopped_sources (browser (run init es)))
       (schedule (browser (run init es)))
  /\ Forall (fun c => chunk_source c
                      ∈ stopped_sources (browser (stopVoiceSession (run init es))))
       (schedule (browser (stopVoiceSession (run init es))))
  /\ audioSourcesRef (refs (stopVoiceSession (run init es))) = ∅.
Proof.
  assert (Hrun : forall s, source_inv s -> source_inv (run s es)).
  { induction es as [|e es IH]; intros s Hs; [exact Hs|].
    apply IH, step_source_inv, Hs. }
  destruct (Hrun init) as [H1 H2 H3].
  { split; cbn; constructor. }
  split; [exact H3|]. split; [exact H2|]. split; [|reflexivity].
  cbn [stopVoiceSession browser schedule stopped_sources].
  eapply Forall_impl; [exact H2|]. intros c Hc. cbv beta in *.
  apply elem_of_union in Hc as [Hc|Hc];
    apply elem_of_union; [now right | now left].
Qed.

Ltac set_cases :=
  apply set_eq; intros ?;
  rewrite ?elem_of_union, ?elem_of_difference, ?elem_of_union,
    ?elem_of_difference, ?elem_of_empty; tauto.

(** X27.  The teardown is idempotent: running [stopVoiceSession] twice
    leaves the state of running it once, in any state, reachable or not.
    So the terminate control does nothing more after a teardown, and an
    error followed by the close of the same channel has the effect of
    the error alone. *)
Theorem teardown_idempotent (s : State T) (session : nat) :
  stopVoiceSession (stopVoiceSession s) = stopVoiceSession s
  /\ step (stopVoiceSession s) ClickTerminate = stopVoiceSession s
  /\ step (step s (ChannelDown session)) (ChannelDown session)
     = step s (ChannelDown session).
Proof.
  split; [|split].
  - unfold stopVoiceSession. cbn. f_equal. f_equal; set_cases.
  - reflexivity.
  - cbn [step].
    destruct (bool_decide (session ∈ open_sessions (browser s)
                           ∨ session ∈ closed_sessions (browser s))) eqn:Hknown.
    + rewrite bool_decide_eq_true_2.
      * unfold channel_down, stopVoiceSession. cbn. f_equal. f_equal; set_cases.
      * right. unfold channel_down, stopVoiceSession. cbn.
        rewrite !elem_of_union, elem_of_singleton. auto.
    + rewrite Hknown. reflexivity.
Qed.

End SourceFacts.

(* ===================================================================== *)
(** * Further properties of the audio encoding *)
(* ===================================================================== *)

Section EncodingExtras.
Import Base64.

Ltac case_tests :=
  repeat match goal with
  | |- context [if ?b then _ else _] => destruct b eqn:?
  end;
  repeat match goal with
  | H : (_ && _)%bool = true |- _ => apply andb_true_iff in H; destruct H
  | H : (_ && _)%bool = false |- _ => apply andb_false_iff in H; destruct H
  | H : (_ <=? _) = true |- _ => apply N.leb_le in H
  | H : (_ <=? _) = false |- _ => apply N.leb_gt in H
  | H : (_ <? _) = true |- _ => apply N.ltb_lt in H
  | H : (_ <? _) = false |- _ => apply N.ltb_ge in H
  | H : (_ =? _) = true |- _ => apply N.eqb_eq in H
  | H : (_ =? _) = false |- _ => apply N.eqb_neq in H
  end.

Lemma b64_char_in_alphabet x : is_Some (b64_index (b64_char x)).
Proof.
  unfold b64_char. case_tests; unfold b64_index; case_tests; eauto; lia.
Qed.

Lemma btoa_groups_shape l :
  length (btoa_groups l) = (4 * ((length l + 2) / 3))%nat
  /\ Forall (fun c => is_Some (b64_index c) \/ c = pad) (btoa_groups l).
Proof.
  induction l as [|a|a b|a b c r [IH1 IH2]] using list_ind3;
    cbn [btoa_groups].
  - split; [reflexivity | constructor].
  - split; [reflexivity|].
    repeat (apply List.Forall_cons;
            [first [left; apply b64_char_in_alphabet | now right]|]).
    apply List.Forall_nil.
  - split; [reflexivity|].
    repeat (apply List.Forall_cons;
            [first [left; apply b64_char_in_alphabet | now right]|]).
    apply List.Forall_nil.
  - split.
    + cbn [length]. rewrite IH1.
      replace (S (S (S (length r))) + 2)%nat with (length r + 2 + 1 * 3)%nat by lia.
      rewrite Nat.div_add by lia. lia.
    + repeat (apply List.Forall_cons; [left; apply b64_char_in_alphabet|]).
      exact IH2.
Qed.

(** X20.  [encode] never fails; its result has four characters for
    every started group of three bytes, and consists of characters of
    the base64 alphabet and the padding character only. *)
Theorem encode_shape (bytes : list Byte.byte) :
  exists base64,
    encode bytes = Ok base64
    /\ length base64 = (4 * ((length bytes + 2) / 3))%nat
    /\ Forall (fun c => is_Some (b64_index c) \/ c = pad) base64.
Proof.
  exists (btoa_groups (map fromCharCode bytes)).
  split; [apply encode_eq|].
  destruct (btoa_groups_shape (map fromCharCode bytes)) as [H1 H2].
  split; [|exact H2]. now rewrite H1, length_map.
Qed.

Lemma decode_btoa_groups bytes :
  decode (btoa_groups (map fromCharCode bytes)) = Ok bytes.
Proof.
  unfold decode. rewrite atob_btoa_groups.
  - cbn [rbind]. f_equal. rewrite map_map.
    rewrite <- (map_id bytes) at 2. apply map_ext, to_uint8_fromCharCode.
  - apply Forall_forall. intros c Hc.
    apply list_elem_of_In, in_map_iff in Hc as (b & <- & _).
    pose proof (Byte.to_N_bounded b). unfold fromCharCode. lia.
Qed.

End EncodingExtras.

Section PcmExtras.
Import Base64 Pcm.

Lemma to_N_to_uint8 n : Byte.to_N (to_uint8 n) = n mod 256.
Proof.
  unfold to_uint8.
  destruct (Byte.of_N (n mod 256)) as [b|] eqn:Hb.
  - now apply Byte.to_of_N.
  - apply Byte.of_N_None_iff in Hb.
    pose proof (N.mod_upper_bound n 256). lia.
Qed.

Lemma ToInt16_range v : (-32768 <= ToInt16 v < 32768)%Z.
Proof.
  destruct v as [q|]; cbn [ToInt16]; [|lia].
  pose proof (Z.mod_pos_bound (truncate q) 65536 eq_refl).
  destruct (Z.leb_spec 32768 (truncate q mod 65536)); lia.
Qed.

Lemma int16_bytes_roundtrip w rest :
  (-32768 <= w < 32768)%Z ->
  Int16Array_view (int16_bytes w ++ rest) = w :: Int16Array_view rest.
Proof.
  intros Hw. unfold int16_bytes. cbn [app Int16Array_view]. f_equal.
  unfold int16_of_bytes. rewrite !to_N_to_uint8.
  set (u := Z.to_N (w mod 65536)).
  assert (Hu : Z.of_N u = (w mod 65536)%Z).
  { subst u. apply Z2N.id. apply Z.mod_pos_bound. lia. }
  assert (Hb : (0 <= w mod 65536 < 65536)%Z) by (apply Z.mod_pos_bound; lia).
  assert (Hsum : (Z.of_N ((u mod 256) mod 256)
                  + 256 * Z.of_N ((u / 256) mod 256))%Z
                 = (w mod 65536)%Z).
  { rewrite <- Hu. lia. }
  rewrite Hsum.
  destruct (Z.leb_spec 32768 (w mod 65536)); lia.
Qed.

Lemma Int16Array_view_flat_map ws :
  Forall (fun w => (-32768 <= w < 32768)%Z) ws ->
  Int16Array_view (flat_map int16_bytes ws) = ws.
Proof.
  induction 1 as [|w ws Hw _ IH]; [reflexivity|].
  cbn [flat_map]. rewrite int16_bytes_roundtrip by exact Hw. now f_equal.
Qed.

Lemma flat_map_int16_length ws :
  length (flat_map int16_bytes ws) = (2 * length ws)%nat.
Proof.
  induction ws as [|w ws IH]; [reflexivity|].
  cbn [flat_map length app int16_bytes]. rewrite IH. lia.
Qed.

(** X21.  [createBlob] never fails and labels its data as 16 kHz PCM.
    Decoding that data gives two bytes per sample, and the 16-bit view
    of those bytes is exactly the list of converted samples: the path
    through base64 and the byte view is lossless.  For a non-empty
    frame [decodeAudioData] accepts the bytes and reports one frame per
    sample. *)
Theorem createBlob_transport (samples : list float) :
  exists blob bytes,
    createBlob samples = Ok blob
    /\ mimeType blob = js "audio/pcm;rate=16000"
    /\ decode (data blob) = Ok bytes
    /\ length bytes = (2 * length samples)%nat
    /\ Int16Array_view bytes = map (fun x => ToInt16 (scale x)) samples
    /\ (samples <> [] ->
        Voice.decodeAudioData bytes 16000 1
        = Ok {| Voice.buffer_length := N.of_nat (length samples);
                Voice.buffer_sampleRate := 16000 |}).
Proof.
  set (ws := map (fun x => ToInt16 (scale x)) samples).
  exists {| data := btoa_groups (map fromCharCode (flat_map int16_bytes ws));
            mimeType := js "audio/pcm;rate=16000" |},
         (flat_map int16_bytes ws).
  assert (Hlen : length (flat_map int16_bytes ws) = (2 * length samples)%nat).
  { rewrite flat_map_int16_length. subst ws. now rewrite length_map. }
  split; [unfold createBlob; fold ws; now rewrite encode_eq|].
  split; [reflexivity|]. split; [apply decode_btoa_groups|].
  split; [exact Hlen|]. split.
  - apply Int16Array_view_flat_map. subst ws. apply Forall_forall.
    intros w Hw. apply list_elem_of_In, in_map_iff in Hw as (x & <- & _).
    apply ToInt16_range.
  - intros Hne. unfold Voice.decodeAudioData. rewrite Hlen.
    assert (Hpos : (0 < length samples)%nat) by (destruct samples; [contradiction | cbn; lia]).
    replace (N.of_nat (2 * length samples)) with (2 * N.of_nat (length samples)) by lia.
    rewrite N.odd_mul, N.odd_2. cbn [andb].
    replace (2 * N.of_nat (length samples) / 2 / 1) with (N.of_nat (length samples)).
    + destruct (N.eqb_spec (N.of_nat (length samples)) 0); [lia | reflexivity].
    + rewrite N.div_1_r. rewrite N.mul_comm, N.div_mul by lia. reflexivity.
Qed.

Lemma createBlob_transport_witness :
  exists blob bytes,
    createBlob [Finite (1 # 2); Finite (-1 # 4)] = Ok blob
    /\ decode (data blob) = Ok bytes
    /\ Int16Array_view bytes = [16384%Z; (-8192)%Z].
Proof.
  destruct (createBlob_transport [Finite (1 # 2); Finite (-1 # 4)])
    as (blob & bytes & Hb & _ & Hd & _ & Hv & _).
  exists blob, bytes. split; [exact Hb|]. split; [exact Hd | exact Hv].
Defined.

Local Open Scope Z_scope.

Lemma quot_facts a D : 0 < D ->
  a = D * Z.quot a D + Z.rem a D /\ - D < Z.rem a D < D
  /\ (0 <= a -> 0 <= Z.rem a D) /\ (a <= 0 -> Z.rem a D <= 0).
Proof.
  intros HD. split; [apply Z.quot_rem'|].
  pose proof (Z.rem_bound_abs a D ltac:(lia)).
  pose proof (Z.rem_nonneg a D ltac:(lia)).
  pose proof (Z.rem_nonpos a D ltac:(lia)).
  lia.
Qed.

Lemma ToInt16_small t q :
  truncate q = t -> -32768 <= t <= 32767 -> ToInt16 (Finite q) = t.
Proof.
  intros <- Ht. cbn [ToInt16].
  destruct (Z.leb_spec 32768 (truncate q mod 65536)); lia.
Qed.

Lemma truncate_scaled n d :
  truncate ((n # d) * 32768) = Z.quot (n * 32768) (Z.pos d).
Proof. unfold truncate. cbn [Qmult Qnum Qden]. now rewrite Pos.mul_1_r. Qed.

(** X22.  A sample in the range from -1 (included) to 1 (excluded) is
    stored as a 16-bit value between -32768 and 32767, and the sample
    that [decodeAudioData] computes from that value, the value divided
    by 32768, differs from the original by less than 1/32768. *)
Theorem sample_quantisation (q : Q) :
  (-1 <= q)%Q -> (q < 1)%Q ->
  -32768 <= ToInt16 (scale (Finite q)) <= 32767
  /\ (Qabs (q - inject_Z (ToInt16 (scale (Finite q))) / 32768) < 1 # 32768)%Q.
Proof.
  destruct q as [n d]. unfold Qle, Qlt at 1. cbn [Qnum Qden]. intros H1 H2.
  destruct (quot_facts (n * 32768) (Z.pos d) eq_refl) as (He & Hr & Hp & Hn).
  pose proof (truncate_scaled n d) as Ht.
  set (t := Z.quot (n * 32768) (Z.pos d)) in *.
  set (r := Z.rem (n * 32768) (Z.pos d)) in *.
  assert (Hrange : -32768 <= t <= 32767) by nia.
  cbn [scale]. rewrite (ToInt16_small t _ Ht Hrange).
  split; [exact Hrange|].
  apply Qabs_Qlt_condition.
  unfold Qlt, Qminus, Qplus, Qopp, Qdiv, Qmult, Qinv, inject_Z. cbn [Qnum Qden].
  rewrite Pos2Z.inj_mul. change (Z.pos (1 * 32768)) with 32768. nia.
Qed.

Lemma sample_quantisation_witness :
  ToInt16 (scale (Finite (1 # 3))) = 10922
  /\ (Qabs ((1 # 3) - inject_Z 10922 / 32768) < 1 # 32768)%Q.
Proof.
  split; [reflexivity|].
  exact (proj2 (sample_quantisation (1 # 3) ltac:(discriminate) eq_refl)).
Defined.

(** X23.  The samples [decodeAudioData] produces go back through
    [createBlob] unchanged: for every 16-bit value k, the sample
    k/32768 is stored as k again. *)
Theorem sample_roundtrip (k : Z) :
  -32768 <= k < 32768 ->
  ToInt16 (scale (Finite (inject_Z k / 32768))) = k.
Proof.
  intros Hk. cbn [scale]. apply ToInt16_small; [|lia].
  unfold truncate, Qdiv, Qmult, Qinv, inject_Z. cbn [Qnum Qden].
  change (Z.pos (1 * 32768 * 1)) with 32768.
  rewrite Z.mul_1_r. apply Z.quot_mul. lia.
Qed.

Lemma sample_roundtrip_witness :
  ToInt16 (scale (Finite (inject_Z (-12345) / 32768))) = -12345.
Proof. apply sample_roundtrip. lia. Defined.

(** X24.  The conversion does not clip: a sample from +1 (included) to
    +2 (excluded) is stored as a negative value, its scaled integral
    part less 65536; full scale +1 becomes -32768. *)
Theorem sample_overflow_wraps (q : Q) :
  (1 <= q)%Q -> (q < 2)%Q ->
  ToInt16 (scale (Finite q)) = truncate (q * 32768) - 65536
  /\ -32768 <= ToInt16 (scale (Finite q)) < 0.
Proof.
  destruct q as [n d]. unfold Qle, Qlt. cbn [Qnum Qden]. intros H1 H2.
  destruct (quot_facts (n * 32768) (Z.pos d) eq_refl) as (He & Hr & Hp & Hn).
  pose proof (truncate_scaled n d) as Ht.
  cbn [scale ToInt16]. rewrite Ht.
  set (t := Z.quot (n * 32768) (Z.pos d)) in *.
  set (r := Z.rem (n * 32768) (Z.pos d)) in *.
  assert (Hrange : 32768 <= t < 65536) by nia.
  destruct (Z.leb_spec 32768 (t mod 65536)); lia.
Qed.

Lemma sample_overflow_wraps_witness :
  ToInt16 (scale (Finite 1)) = -32768.
Proof.
  exact (proj1 (sample_overflow_wraps 1 ltac:(discriminate) eq_refl)).
Defined.

End PcmExtras.
